(** * ethers-v6-kms-signer: the signature adaptation layer and the signer

    A shallow embedding of the module the signer imports as [./crypto]
    (decoding, address derivation, low-s normalisation, recovery-id search;
    it is the second part of [src/types.ts]) and of [src/AwsKmsSigner.ts]
    (the memoising signer), with the theorems that relate them to the
    repository's specification.

    Conventions.  A [bigint] is a [Z]; a [Buffer] is a list of bytes; a JS
    string is a [string]; a JS object used as a property bag is a
    [gmap string _]; a function that can throw returns a [Result]; a method
    that reads or writes the signer, the request object or the KMS endpoint
    runs in the monad [M], whose state survives a throw. *)

From Stdlib Require Import ZArith Lia Ascii String List DecimalString.
From Stdlib.Strings Require Import Byte.
From stdpp Require Import base option gmap strings.
Import ListNotations.

Local Open Scope string_scope.
Local Open Scope Z_scope.

(** ** Results of functions that may throw *)

Inductive Error : Type :=
  | SyntaxError                                   (* BigInt("0x-1") and the like *)
  | InvalidAddress                                (* ethers getAddress *)
  | NoCorrectV                                    (* 'Could not determine correct v value for signature' *)
  | MissingPublicKey                              (* 'Could not get Public Key from AWS KMS' *)
  | MissingSignature                              (* 'Could not get signature from AWS KMS' *)
  | AddressMismatch (fromStr ethAddress : string) (* 'Transaction from address mismatch: ...' *)
  | External (what : string).                     (* thrown or rejected by a collaborator *)

Inductive Result (A : Type) : Type :=
  | Ok (a : A)
  | Throw (e : Error).
Arguments Ok {A} a.
Arguments Throw {A} e.

Definition of_option {A} (e : Error) (o : option A) : Result A :=
  match o with
  | Some a => Ok a
  | None => Throw e
  end.

#[export] Instance Result_ret : MRet Result := fun _ a => Ok a.
#[export] Instance Result_bind : MBind Result := fun _ _ k r =>
  match r with
  | Ok a => k a
  | Throw e => Throw e
  end.

(** What a collaborator (asn1.js, ethers, the AWS SDK, a promise handed in
    by the caller) gives back: a value, or a failure of its own. *)
Inductive Outcome (A : Type) : Type :=
  | Returned (a : A)
  | Failed (what : string).
Arguments Returned {A} a.
Arguments Failed {A} what.

Definition call {A} (o : Outcome A) : Result A :=
  match o with
  | Returned a => Ok a
  | Failed what => Throw (External what)
  end.

(** ** Strings: case mapping, slices *)

Definition lowerChar (c : ascii) : ascii :=
  let n := nat_of_ascii c in
  if (Nat.leb 65 n && Nat.leb n 90)%bool then ascii_of_nat (n + 32) else c.

Definition upperChar (c : ascii) : ascii :=
  let n := nat_of_ascii c in
  if (Nat.leb 97 n && Nat.leb n 122)%bool then ascii_of_nat (n - 32) else c.

(** [String.prototype.toLowerCase] on the ASCII range (addresses and hex
    strings are ASCII; other code units are left as they are). *)
Fixpoint toLowerCase (s : string) : string :=
  match s with
  | EmptyString => EmptyString
  | String c s' => String (lowerChar c) (toLowerCase s')
  end.

Fixpoint string_drop (n : nat) (s : string) : string :=
  match n, s with
  | O, _ => s
  | S n', String _ s' => string_drop n' s'
  | S _, EmptyString => EmptyString
  end.

(** [s.slice(-k)]: the last [k] characters (all of [s] when it is shorter). *)
Definition slice_last (k : nat) (s : string) : string :=
  string_drop (String.length s - k) s.

(** ** Hexadecimal: printing and parsing big integers *)

Definition hexDigit (d : Z) : ascii :=
  if d <? 10 then ascii_of_nat (48 + Z.to_nat d)
  else ascii_of_nat (87 + Z.to_nat d).

(** Value of a digit character in radixes up to 16, both letter cases. *)
Definition digitVal (c : ascii) : option Z :=
  let n := nat_of_ascii c in
  if (Nat.leb 48 n && Nat.leb n 57)%bool then Some (Z.of_nat n - 48)
  else if (Nat.leb 97 n && Nat.leb n 102)%bool then Some (Z.of_nat n - 87)
  else if (Nat.leb 65 n && Nat.leb n 70)%bool then Some (Z.of_nat n - 55)
  else None.

(** Most significant digit first; [acc] is what follows. *)
Fixpoint digits16 (fuel : nat) (n : Z) (acc : string) : string :=
  match fuel with
  | O => acc
  | S fuel' =>
      let acc' := String (hexDigit (n mod 16)) acc in
      if n / 16 =? 0 then acc' else digits16 fuel' (n / 16) acc'
  end.

Definition digits16_fuel (n : Z) : nat := S (Z.to_nat (Z.log2 n)).

(** [x.toString(16)] of a [bigint] (and of a BN.js number): lower-case
    digits, no prefix, no leading zero, ["0"] for zero, a minus sign before
    the digits of a negative number. *)
Definition toString16 (n : Z) : string :=
  if n <? 0 then String "-" (digits16 (digits16_fuel (- n)) (- n) "")
  else digits16 (digits16_fuel n) n "".

Fixpoint parseDigits (radix : Z) (s : string) (acc : Z) : option Z :=
  match s with
  | EmptyString => Some acc
  | String c s' =>
      match digitVal c with
      | Some d => if d <? radix then parseDigits radix s' (radix * acc + d) else None
      | None => None
      end
  end.

Definition parseNonEmpty (radix : Z) (s : string) : option Z :=
  match s with
  | EmptyString => None
  | _ => parseDigits radix s 0
  end.

(** [BigInt(s)] for a string [s] without surrounding white space
    (StringToBigInt): the empty string is [0n]; a [0x], [0o] or [0b] prefix
    selects the radix and admits no sign; otherwise an optionally signed
    decimal numeral.  [None] is the [SyntaxError]. *)
Definition BigInt_of_string (s : string) : option Z :=
  match s with
  | EmptyString => Some 0
  | String c0 (String c1 ds) =>
      if Ascii.eqb c0 "0" && (Ascii.eqb c1 "x" || Ascii.eqb c1 "X") then parseNonEmpty 16 ds
      else if Ascii.eqb c0 "0" && (Ascii.eqb c1 "o" || Ascii.eqb c1 "O") then parseNonEmpty 8 ds
      else if Ascii.eqb c0 "0" && (Ascii.eqb c1 "b" || Ascii.eqb c1 "B") then parseNonEmpty 2 ds
      else if Ascii.eqb c0 "-" then Z.opp <$> parseNonEmpty 10 (String c1 ds)
      else if Ascii.eqb c0 "+" then parseNonEmpty 10 (String c1 ds)
      else parseDigits 10 s 0
  | String c0 EmptyString => parseDigits 10 s 0
  end.

(** [toHex] *)
Definition toHex (bigIntValue : Z) : string :=
  let hex := toString16 bigIntValue in
  let hex := if negb (Nat.eqb (String.length hex mod 2) 0) then String "0" hex else hex in
  "0x" +:+ hex.

(** ** Buffers *)

Definition Buffer : Type := list byte.

Definition u8 (b : byte) : Z := Z.of_N (Byte.to_N b).

(** [new BN(raw)]: the bytes read as a big-endian unsigned number. *)
Definition be_uint (raw : Buffer) : Z :=
  fold_left (fun acc b => 256 * acc + u8 b) raw 0.

Definition hexByte (b : byte) : string :=
  String (hexDigit (u8 b / 16)) (String (hexDigit (u8 b mod 16)) "").

Fixpoint hexBytes (bs : Buffer) : string :=
  match bs with
  | [] => ""
  | b :: bs' => hexByte b +:+ hexBytes bs'
  end.

(** ethers [hexlify]. *)
Definition hexlify (bs : Buffer) : string := "0x" +:+ hexBytes bs.

(** The char codes of an ASCII string, as [Uint8Array]. *)
Definition charCodes (s : string) : Buffer := map byte_of_ascii (list_ascii_of_string s).

(** ** The collaborators

    What the repository imports and does not define: the asn1.js decoders of
    the two schemas the crypto module declares, the ethers primitives, and the
    KMS endpoint behind [client.send]. *)

Class Asn1 : Type := {
  (** [EcdsaSigAsnParse.decode(signature, 'der')]: the BN.js numbers [r], [s]. *)
  EcdsaSigAsnParse_decode : Buffer -> Outcome (Z * Z);
  (** [EcdsaPubKey.decode(publicKey, 'der').pubKey.data]. *)
  EcdsaPubKey_decode : Buffer -> Outcome Buffer
}.

Record Transaction : Type := {
  unsignedHash : string;
  payload : string
}.

(** A value a property of a request can hold once settled. *)
Inductive JsValue : Type :=
  | VUndefined
  | VNull
  | VString (s : string)
  | VBigInt (n : Z)
  | VObject (toStringResult : string).   (* an object, with what its toString() returns *)

(** A property: a plain value, or a promise that fulfils with a value or
    rejects. *)
Inductive JsProp : Type :=
  | Plain (v : JsValue)
  | Promise (outcome : Outcome JsValue).

Class Ethers : Type := {
  (** The Keccak-256 digest behind ethers [keccak256]. *)
  keccak256_raw : Buffer -> Buffer;
  (** [recoverAddress(digest, { r, s, v })]. *)
  recoverAddress : Buffer -> string -> string -> Z -> Outcome string;
  (** The ICAP branch of ethers [getAddress]. *)
  fromIcap : string -> Outcome string;
  (** [getBytes(hex)]. *)
  getBytes : string -> Outcome Buffer;
  (** [hashMessage(message)]. *)
  hashMessage : string -> Outcome string;
  (** [TypedDataEncoder.hash(domain, types, value)], of the three arguments
      taken together. *)
  TypedDataEncoder_hash : string -> Outcome string;
  (** [Signature.from({ r, s, v }).serialized]. *)
  Signature_serialized : string -> string -> Z -> Outcome string;
  (** [Transaction.from(txRequest)]. *)
  Transaction_from : gmap string JsProp -> Outcome Transaction;
  (** [tx.signature = sig; tx.serialized]. *)
  Transaction_serialized : Transaction -> string -> Outcome string
}.

(** The asn1.js DER reader specialised to the two schemas, for encodings
    with definite lengths and one-byte tags (the indefinite-length form of
    BER is reported as a failure here). *)
Module Der.

Definition readLength (buf : Buffer) : option (nat * Buffer) :=
  match buf with
  | [] => None
  | l :: rest =>
      if u8 l <? 128 then Some (Z.to_nat (u8 l), rest)
      else if u8 l =? 128 then None
      else
        let num := Z.to_nat (u8 l - 128) in
        if (4 <? num)%nat then None
        else if (length rest <? num)%nat then None
        else Some (Z.to_nat (be_uint (firstn num rest)), skipn num rest)
  end.

(** One tag-length-value item: its content and what follows it. *)
Definition readItem (tag : Z) (buf : Buffer) : option (Buffer * Buffer) :=
  match buf with
  | [] => None
  | t :: rest =>
      if u8 t =? tag then
        '(len, rest') ← readLength rest;
        if (length rest' <? len)%nat then None
        else Some (firstn len rest', skipn len rest')
      else None
  end.

(** [seq().obj(key('r').int(), key('s').int())] *)
Definition EcdsaSig (buf : Buffer) : option (Z * Z) :=
  '(body, _) ← readItem 0x30 buf;
  '(r, body) ← readItem 0x02 body;
  '(s, _) ← readItem 0x02 body;
  Some (be_uint r, be_uint s).

(** [seq().obj(key('algo').seq().obj(objid, objid), key('pubKey').bitstr())];
    the bit string is its unused-bits byte followed by the data. *)
Definition EcdsaPubKey (buf : Buffer) : option Buffer :=
  '(body, _) ← readItem 0x30 buf;
  '(algo, body) ← readItem 0x30 body;
  '(_, algo) ← readItem 0x06 algo;
  '(_, _) ← readItem 0x06 algo;
  '(bits, _) ← readItem 0x03 body;
  match bits with
  | [] => None
  | _unused :: data => Some data
  end.

#[export] Instance asn1 : Asn1 := {|
  EcdsaSigAsnParse_decode buf := from_option Returned (Failed "EcdsaSig") (EcdsaSig buf);
  EcdsaPubKey_decode buf := from_option Returned (Failed "EcdsaPubKey") (EcdsaPubKey buf)
|}.

End Der.

(** ** The crypto module of [src/types.ts] *)

Record RsSignature : Type := { sig_r : string; sig_s : string }.

Definition secp256k1N : Z :=
  0xfffffffffffffffffffffffffffffffebaaedce6af48a03bbfd25e8cd0364141.

Definition secp256k1halfN : Z := secp256k1N ÷ 2.

(** The argument of [toHex] for the [s] field in [getRsSignature]:
    [s > secp256k1halfN ? secp256k1N - s : s]. *)
Definition flipS (s : Z) : Z :=
  if s >? secp256k1halfN then secp256k1N - s else s.

(** ethers [getChecksumAddress], on the forty hex characters: character
    [2i] is put in upper case when the high nibble of [hashed[i]] is at
    least 8, character [2i+1] when the low nibble is. *)
Fixpoint checksumCase (chars : string) (hashed : Buffer) : string :=
  match chars, hashed with
  | String c0 (String c1 rest), h :: hashed' =>
      String (if 8 <=? u8 h / 16 then upperChar c0 else c0)
        (String (if 8 <=? u8 h mod 16 then upperChar c1 else c1)
           (checksumCase rest hashed'))
  | _, _ => chars
  end.

Definition isHexChar (c : ascii) : bool := bool_decide (is_Some (digitVal c)).

Fixpoint string_forallb (p : ascii -> bool) (s : string) : bool :=
  match s with
  | EmptyString => true
  | String c s' => p c && string_forallb p s'
  end.

Fixpoint string_existsb (p : ascii -> bool) (s : string) : bool :=
  match s with
  | EmptyString => false
  | String c s' => p c || string_existsb p s'
  end.

Definition inRange (lo hi : nat) (c : ascii) : bool :=
  (Nat.leb lo (nat_of_ascii c) && Nat.leb (nat_of_ascii c) hi)%bool.

Definition isAlnum (c : ascii) : bool :=
  inRange 48 57 c || inRange 65 90 c || inRange 97 122 c.

Fixpoint startsWith (p s : string) : bool :=
  match p, s with
  | EmptyString, _ => true
  | String a p', String b s' => Ascii.eqb a b && startsWith p' s'
  | String _ _, EmptyString => false
  end.

(** [/^(0x)?[0-9a-fA-F]{40}$/] *)
Definition isAddressString (address : string) : bool :=
  let body := if startsWith "0x" address then string_drop 2 address else address in
  Nat.eqb (String.length body) 40 && string_forallb isHexChar body.

(** [/([A-F].*[a-f])|([a-f].*[A-F])/] on a string without line breaks: a
    letter of each case occurs. *)
Definition isMixedCase (address : string) : bool :=
  string_existsb (inRange 65 70) address && string_existsb (inRange 97 102) address.

(** [/^XE[0-9]{2}[0-9A-Za-z]{30,31}$/] *)
Definition isIcapString (address : string) : bool :=
  startsWith "XE" address
  && string_forallb (inRange 48 57) (String.substring 2 2 address)
  && Nat.eqb (String.length (String.substring 2 2 address)) 2
  && string_forallb isAlnum (string_drop 4 address)
  && (Nat.eqb (String.length (string_drop 4 address)) 30
      || Nat.eqb (String.length (string_drop 4 address)) 31).

Section Crypto.
Context {A : Asn1} {E : Ethers}.

(** ethers [keccak256]: the digest as a [0x]-prefixed hex string. *)
Definition keccak256 (data : Buffer) : string := hexlify (keccak256_raw data).

Definition getChecksumAddress (address : string) : string :=
  let address := toLowerCase address in
  let chars := string_drop 2 address in
  let hashed := keccak256_raw (charCodes chars) in
  "0x" +:+ checksumCase chars (firstn 20 hashed).

(** ethers [getAddress]. *)
Definition ethers_getAddress (address : string) : Result string :=
  if isAddressString address then
    let address := if startsWith "0x" address then address else "0x" +:+ address in
    let result := getChecksumAddress address in
    if negb (isMixedCase address) || String.eqb result address then Ok result
    else Throw InvalidAddress
  else if isIcapString address then call (fromIcap address)
  else Throw InvalidAddress.

(** [decodeEcdsaSig]: each BN.js number goes through
    [BigInt(`0x${n.toString(16)}`)]. *)
Definition decodeEcdsaSig (signature : Buffer) : Result (Z * Z) :=
  '(r, s) ← call (EcdsaSigAsnParse_decode signature);
  r ← of_option SyntaxError (BigInt_of_string ("0x" +:+ toString16 r));
  s ← of_option SyntaxError (BigInt_of_string ("0x" +:+ toString16 s));
  Ok (r, s).

(** [decodeEcdsaPubKey] *)
Definition decodeEcdsaPubKey (publicKey : Buffer) : Result Buffer :=
  call (EcdsaPubKey_decode publicKey).

(** [getEthAddress]: [subarray(1, length)], [keccak256(..).slice(-40)],
    then ethers [getAddress]. *)
Definition getEthAddress (publicKeyDer : Buffer) : Result string :=
  decodedPublicKey ← decodeEcdsaPubKey publicKeyDer;
  let noPrefixPublicKey := skipn 1 decodedPublicKey in
  let address := "0x" +:+ slice_last 40 (keccak256 noPrefixPublicKey) in
  ethers_getAddress address.

(** [getRsSignature] *)
Definition getRsSignature (signature : Buffer) : Result RsSignature :=
  '(r, s) ← decodeEcdsaSig signature;
  Ok {| sig_r := toHex r; sig_s := toHex (flipS s) |}.

(** [isCorrectV] *)
Definition isCorrectV (expectedEthAddr : string) (msg : Buffer) (r s : string) (v : Z)
  : Result bool :=
  recoveredAddress ← call (recoverAddress msg r s v);
  Ok (String.eqb (toLowerCase recoveredAddress) (toLowerCase expectedEthAddr)).

(** [determineCorrectV] *)
Definition determineCorrectV (msg : Buffer) (r s : string) (expectedEthAddr : string)
  : Result Z :=
  ok27 ← isCorrectV expectedEthAddr msg r s 27;
  if ok27 : bool then Ok 27
  else
    ok28 ← isCorrectV expectedEthAddr msg r s 28;
    if ok28 : bool then Ok 28
    else Throw NoCorrectV.

End Crypto.

(** ** The configuration ([AwsKmsSignerConfig] of [src/types.ts]) *)

Record Credentials : Type := {
  accessKeyId : string;
  secretAccessKey : string;
  sessionToken : option string
}.

Module Config.
Record t : Type := {
  keyId : string;
  region : option string;
  profile : option string;
  credentials : option Credentials
}.
End Config.
Abbreviation AwsKmsSignerConfig := Config.t.

(** ** [src/AwsKmsSigner.ts] *)

(** What [clientConfig.credentials] is set to; [None] on the client is the
    default credential chain of the SDK. *)
Inductive CredentialProvider : Type :=
  | Explicit (c : Credentials)
  | fromIni (profile : string).

(** A [KMSClient]: the [clientConfig] it was made from, as given to its
    constructor. *)
Record KMSClient : Type := {
  config_region : string;
  config_credentials : option CredentialProvider
}.

Definition Provider : Type := string.

Record AwsKmsSigner : Type := {
  provider : option Provider;
  address : option string;
  keyId : string;
  client : KMSClient
}.

(** A string operand of [||] or of [if]: [undefined] and [''] are falsy. *)
Definition truthyString (o : option string) : option string :=
  match o with
  | Some s => if String.eqb s "" then None else Some s
  | None => None
  end.

(** The constructor; [env_AWS_REGION] is [process.env.AWS_REGION]. *)
Definition new_AwsKmsSigner (env_AWS_REGION : option string)
    (config : AwsKmsSignerConfig) (provider : option Provider) : AwsKmsSigner :=
  let region :=
    match truthyString (Config.region config) with
    | Some region => region
    | None =>
        match truthyString env_AWS_REGION with
        | Some region => region
        | None => "us-east-1"
        end
    end in
  let credentials :=
    match Config.credentials config with
    | Some c => Some (Explicit c)
    | None =>
        match truthyString (Config.profile config) with
        | Some p => Some (fromIni p)
        | None => None
        end
    end in
  {| provider := provider;
     address := None;
     keyId := Config.keyId config;
     client := {| config_region := region; config_credentials := credentials |} |}.

(** [this.client.config.region] is the region the client was made with. *)
Definition connect (env_AWS_REGION : option string) (this : AwsKmsSigner)
    (provider : Provider) : AwsKmsSigner :=
  new_AwsKmsSigner env_AWS_REGION
    {| Config.keyId := keyId this;
       Config.region := Some (config_region (client this));
       Config.profile := None;
       Config.credentials := None |}
    (Some provider).

Inductive KmsCommand : Type :=
  | GetPublicKeyCommand (KeyId : string)
  | SignCommand (KeyId : string) (Message : Buffer).  (* ECDSA_SHA_256, DIGEST *)

(** The endpoint behind [client.send]: the response to a command, given the
    client and the commands sent so far.  [Returned None] is a response
    without the [PublicKey] or [Signature] member. *)
Class Kms : Type := {
  respond : KMSClient -> list KmsCommand -> KmsCommand -> Outcome (option Buffer)
}.

(** What the methods of one signer can read and write: the instance, the
    request object the caller passed by reference, and, as ghost state, the
    commands sent to KMS and the values assigned to [this.address]. *)
Record World : Type := {
  this : AwsKmsSigner;
  txRequest : gmap string JsProp;
  sent : list KmsCommand;
  assigned : list string
}.

Definition M (A : Type) : Type := World -> Result A * World.

#[export] Instance M_ret : MRet M := fun _ a w => (Ok a, w).
#[export] Instance M_bind : MBind M := fun _ _ k m w =>
  match m w with
  | (Ok a, w') => k a w'
  | (Throw e, w') => (Throw e, w')
  end.

Definition throw {A} (e : Error) : M A := fun w => (Throw e, w).
Definition lift {A} (r : Result A) : M A := fun w => (r, w).

(** Run [m] and hand its settled result on: the other member of a
    [Promise.all] still runs.  A method written with it gives the world
    in which every member it started has settled; a [Promise.all] that
    rejects returns to the caller before that, and what can happen in
    between is the subject of the steps under "Calls in flight" below. *)
Definition settle {A} (m : M A) : M (Result A) := fun w =>
  let '(r, w') := m w in (Ok r, w').

Definition get_this : M AwsKmsSigner := fun w => (Ok (this w), w).

Definition set_address (a : string) : M unit := fun w =>
  (Ok (),
   {| this := {| provider := provider (this w); address := Some a;
                 keyId := keyId (this w); client := client (this w) |};
      txRequest := txRequest w;
      sent := sent w;
      assigned := assigned w ++ [a] |}).

Definition get_txRequest : M (gmap string JsProp) := fun w => (Ok (txRequest w), w).

Definition update_txRequest (f : gmap string JsProp -> gmap string JsProp) : M unit :=
  fun w =>
    (Ok (),
     {| this := this w; txRequest := f (txRequest w); sent := sent w; assigned := assigned w |}).

Definition isNullish (v : JsValue) : bool :=
  match v with
  | VUndefined | VNull => true
  | _ => false
  end.

(** Reading a property: [undefined] when it is absent. *)
Definition readProp (o : gmap string JsProp) (k : string) : JsProp :=
  default (Plain VUndefined) (o !! k).

Definition isTruthy (p : JsProp) : bool :=
  match p with
  | Promise _ => true
  | Plain VUndefined | Plain VNull => false
  | Plain (VString s) => negb (String.eqb s "")
  | Plain (VBigInt n) => negb (n =? 0)
  | Plain (VObject _) => true
  end.

(** [p.toString()] of a truthy [p]. *)
Definition toStringOf (p : JsProp) : string :=
  match p with
  | Promise _ => "[object Promise]"
  | Plain (VString s) => s
  | Plain (VBigInt n) => NilZero.string_of_int (Z.to_int n)
  | Plain (VObject str) => str
  | Plain VUndefined | Plain VNull => ""
  end.

(** [await Promise.resolve(p)] *)
Definition await (p : JsProp) : Result JsValue :=
  match p with
  | Plain v => Ok v
  | Promise outcome => call outcome
  end.

(** ethers [resolveProperties({ from: txRequest.from, to: txRequest.to })] *)
Definition resolveProperties (o : gmap string JsProp) : Result (JsValue * JsValue) :=
  from ← await (readProp o "from");
  to ← await (readProp o "to");
  Ok (from, to).

Section Signer.
Context {A : Asn1} {E : Ethers} {K : Kms}.

(** [await this.client.send(command)] *)
Definition send (command : KmsCommand) : M (option Buffer) := fun w =>
  (call (respond (client (this w)) (sent w) command),
   {| this := this w; txRequest := txRequest w;
      sent := sent w ++ [command]; assigned := assigned w |}).

(** [getAddress] *)
Definition getAddress : M string :=
  self ← get_this;
  match truthyString (address self) with
  | Some a => mret a
  | None =>
      PublicKey ← send (GetPublicKeyCommand (keyId self));
      match PublicKey with
      | None => throw MissingPublicKey
      | Some PublicKey =>
          a ← lift (getEthAddress PublicKey);
          _ ← set_address a;
          mret a
      end
  end.

(** [_rawKmsSign] *)
Definition _rawKmsSign (digest : Buffer) : M RsSignature :=
  self ← get_this;
  sigBytes ← send (SignCommand (keyId self) digest);
  match sigBytes with
  | None => throw MissingSignature
  | Some sigBytes => lift (getRsSignature sigBytes)
  end.

(** [_signDigest].  The two members of the [Promise.all] are started in
    the order written, so the Sign command is sent before a public-key
    fetch.  When both fail, [Promise.all] rejects with the error of the
    member that fails first in time, which this definition does not
    tell: it gives the first member's. *)
Definition _signDigest (digestHex : string) : M string :=
  digestBuf ← lift (call (getBytes digestHex));
  rs ← settle (_rawKmsSign digestBuf);
  ethAddress ← settle getAddress;
  rs ← lift rs;
  ethAddress ← lift ethAddress;
  v ← lift (determineCorrectV digestBuf (sig_r rs) (sig_s rs) ethAddress);
  lift (call (Signature_serialized (sig_r rs) (sig_s rs) v)).

(** The last three statements of [signTransaction]: build the
    transaction from the request, sign its hash, serialize. *)
Definition signTransaction_build_and_sign : M string :=
  request ← get_txRequest;
  tx ← lift (call (Transaction_from request));
  signature ← _signDigest (unsignedHash tx);
  lift (call (Transaction_serialized tx signature)).

(** [signTransaction]; [txRequest] is the object in the world.  Of the
    two members of the [Promise.all], [getAddress] has its effects whether
    or not the properties resolve, though it may complete them after the
    method has thrown.  When both fail, [Promise.all] rejects with the
    error of the member that fails first in time, which this definition
    does not tell: it gives the rejection of the property. *)
Definition signTransaction : M string :=
  request ← get_txRequest;
  ethAddress ← settle getAddress;
  '(from, to) ← lift (resolveProperties request);
  ethAddress ← lift ethAddress;
  _ ← (if negb (isNullish to) then update_txRequest <["to" := Plain to]> else mret ());
  _ ← (if negb (isNullish from) then update_txRequest <["from" := Plain from]> else mret ());
  request ← get_txRequest;
  _ ← (if isTruthy (readProp request "from") then
         let fromStr := toStringOf (readProp request "from") in
         if negb (String.eqb (toLowerCase fromStr) (toLowerCase ethAddress)) then
           throw (AddressMismatch fromStr ethAddress)
         else update_txRequest (delete "from")
       else mret ());
  signTransaction_build_and_sign.

(** [signMessage] *)
Definition signMessage (message : string) : M string :=
  digest ← lift (call (hashMessage message));
  _signDigest digest.

(** [signTypedData] *)
Definition signTypedData (domain_types_value : string) : M string :=
  digest ← lift (call (TypedDataEncoder_hash domain_types_value));
  _signDigest digest.

End Signer.

(** ** Histories of one signer

    What a caller can do with an instance, one call after the other, each
    over and with nothing it started left in flight before the next is
    made; a call of [signTransaction] brings the request object it
    passes.  Calls that overlap are histories of steps, under "Calls in
    flight" below. *)

Inductive Operation : Type :=
  | CallGetAddress
  | CallSignTransaction (request : gmap string JsProp)
  | CallSignMessage (message : string)
  | CallSignTypedData (domain_types_value : string).

Definition pass_txRequest (request : gmap string JsProp) : M unit :=
  update_txRequest (fun _ => request).

Section Histories.
Context {A : Asn1} {E : Ethers} {K : Kms}.

Definition perform (op : Operation) (w : World) : World :=
  match op with
  | CallGetAddress => (getAddress w).2
  | CallSignTransaction request => ((_ ← pass_txRequest request; signTransaction) w).2
  | CallSignMessage message => (signMessage message w).2
  | CallSignTypedData data => (signTypedData data w).2
  end.

Definition run (ops : list Operation) (w : World) : World :=
  fold_left (fun w op => perform op w) ops w.

End Histories.

Definition isGetPublicKey (command : KmsCommand) : bool :=
  match command with
  | GetPublicKeyCommand _ => true
  | SignCommand _ _ => false
  end.

Definition isSign (command : KmsCommand) : bool := negb (isGetPublicKey command).

Definition fetches (w : World) : list KmsCommand := filter isGetPublicKey (sent w).

Definition signs (w : World) : list KmsCommand := filter isSign (sent w).

(** [this.address] holds the truthy string [a]. *)
Definition memoized (a : string) (w : World) : Prop :=
  address (this w) = Some a /\ a <> "".

(** [this.address] is still unset and was never assigned, or it holds the
    one value that was ever assigned to it. *)
Definition assigned_at_most_once (w : World) : Prop :=
  (address (this w) = None /\ assigned w = [])
  \/ (exists a, memoized a w /\ assigned w = [a]).

Definition with_txRequest (request : gmap string JsProp) (w : World) : World :=
  {| this := this w; txRequest := request; sent := sent w; assigned := assigned w |}.

Definition with_address (a : string) (self : AwsKmsSigner) : AwsKmsSigner :=
  {| provider := provider self; address := Some a; keyId := keyId self; client := client self |}.

Definition notMismatch (e : Error) : Prop :=
  match e with
  | AddressMismatch _ _ => False
  | _ => True
  end.

(** Relative to the world [w0] in which a method started: the request
    differs at most in [from] and [to], and the signer at most by one
    assignment of a first address. *)
Definition frame (w0 w : World) : Prop :=
  (forall k, k <> "from" -> k <> "to" -> txRequest w !! k = txRequest w0 !! k)
  /\ ((this w = this w0 /\ assigned w = assigned w0)
      \/ exists a,
           truthyString (address (this w0)) = None
           /\ a <> ""
           /\ this w = with_address a (this w0)
           /\ assigned w = (assigned w0 ++ [a])%list).

(** A property of the world that a method keeps. *)
Definition preserves {T} (I : World -> Prop) (m : M T) : Prop :=
  forall w, I w -> I (m w).2.

(** What a result can be: a value in [Q] or an error in [P]. *)
Definition result_in {T} (Q : T -> Prop) (P : Error -> Prop) (r : Result T) : Prop :=
  match r with
  | Ok a => Q a
  | Throw e => P e
  end.

(** What a method can return or throw. *)
Definition returns {T} (Q : T -> Prop) (P : Error -> Prop) (m : M T) : Prop :=
  forall w, result_in Q P (m w).1.

(** ** Test vectors and stand-in collaborators

    Concrete inputs on which the theorems below are exercised.  The
    stand-ins replace ethers and KMS by small total functions; the DER
    reader above is used for the decoders. *)

(** [r = 1], [s = secp256k1N - 1]. *)
Definition sig_high_s : Buffer :=
  [ x30; x26; x02; x01; x01; x02; x21; x00; xff; xff; xff; xff; xff; xff; xff; xff;
    xff; xff; xff; xff; xff; xff; xff; xfe; xba; xae; xdc; xe6; xaf; x48; xa0; x3b;
    xbf; xd2; x5e; x8c; xd0; x36; x41; x40 ].

(** [r = 0], [s = secp256k1N]. *)
Definition sig_out_of_range : Buffer :=
  [ x30; x26; x02; x01; x00; x02; x21; x00; xff; xff; xff; xff; xff; xff; xff; xff;
    xff; xff; xff; xff; xff; xff; xff; xfe; xba; xae; xdc; xe6; xaf; x48; xa0; x3b;
    xbf; xd2; x5e; x8c; xd0; x36; x41; x41 ].

(** An uncompressed point, tag [04] and the 64 bytes [81 .. c0], in its
    SubjectPublicKeyInfo wrapping. *)
Definition point_bytes : Buffer :=
  [ x04; x81; x82; x83; x84; x85; x86; x87; x88; x89; x8a; x8b; x8c; x8d; x8e; x8f; x90;
    x91; x92; x93; x94; x95; x96; x97; x98; x99; x9a; x9b; x9c; x9d; x9e; x9f; xa0;
    xa1; xa2; xa3; xa4; xa5; xa6; xa7; xa8; xa9; xaa; xab; xac; xad; xae; xaf; xb0;
    xb1; xb2; xb3; xb4; xb5; xb6; xb7; xb8; xb9; xba; xbb; xbc; xbd; xbe; xbf; xc0 ].

Definition publicKey_der : Buffer :=
  ([ x30; x56; x30; x10; x06; x07; x2a; x86; x48; xce; x3d; x02; x01; x06; x05; x2b;
    x81; x04; x00; x0a; x03; x42; x00 ] ++ point_bytes)%list.

Module StandIn.

(** Not Keccak: 32 bytes that depend on the input. *)
Definition hash (data : Buffer) : Buffer :=
  firstn 32 (repeat xff 4 ++ rev data ++ repeat xff 32)%list.

(** The address the stand-in hash gives [publicKey_der]. *)
Definition signerAddress : string := "0xB8B7B6B5b4b3b2b1b0afaEadaCabaaa9a8a7a6a5".

Definition otherAddress : string := "0x000000000000000000000000000000000000dEaD".

(** Recovery that yields the signer for [v = 28] and someone else for
    [v = 27]. *)
#[export] Instance ethers : Ethers := {|
  keccak256_raw := hash;
  recoverAddress _ _ _ v := Returned (if v =? 28 then signerAddress else otherAddress);
  fromIcap _ := Failed "icap";
  getBytes _ := Returned [];
  hashMessage _ := Returned "0x";
  TypedDataEncoder_hash _ := Returned "0x";
  Signature_serialized r s v := Returned (r +:+ s);
  Transaction_from _ := Returned {| unsignedHash := "0x"; payload := "" |};
  Transaction_serialized tx signature := Returned signature
|}.

(** A key store with one key, answering every command. *)
#[export] Instance kms : Kms := {|
  respond _ _ command :=
    match command with
    | GetPublicKeyCommand _ => Returned (Some publicKey_der)
    | SignCommand _ _ => Returned (Some sig_high_s)
    end
|}.

Definition signer : AwsKmsSigner :=
  new_AwsKmsSigner None
    {| Config.keyId := "key-1"; Config.region := Some "eu-west-1";
       Config.profile := Some "dev"; Config.credentials := None |}
    None.

Definition world (request : gmap string JsProp) : World :=
  {| this := signer; txRequest := request; sent := []; assigned := [] |}.

(** A request declaring the signer's own address (in lower case) and a
    recipient still to be resolved. *)
Definition request : gmap string JsProp :=
  <["from" := Plain (VString (toLowerCase signerAddress))]>
    (<["to" := Promise (Returned (VString otherAddress))]>
       (<["value" := Plain (VBigInt 1)]> ∅)).

(** A request declaring somebody else's address. *)
Definition request_of_other : gmap string JsProp :=
  <["from" := Plain (VString otherAddress)]> ∅.

End StandIn.

(** ** Further vectors and stand-ins *)

(** [/[0-9a-f]/] *)
Definition isLowerHexChar (c : ascii) : bool := inRange 48 57 c || inRange 97 102 c.

(** A SubjectPublicKeyInfo whose bit string holds the single byte [02]:
    no uncompressed point. *)
Definition publicKey_der_short : Buffer :=
  [ x30; x16; x30; x10; x06; x07; x2a; x86; x48; xce; x3d; x02; x01; x06; x05; x2b;
    x81; x04; x00; x0a; x03; x02; x00; x02 ].

(** What signing a digest does to the world [w]: the request object is
    left alone; nothing is sent, or one Sign for the key of the instance
    with the instance left as it was (address memoized), or one Sign
    followed by one GetPublicKey (address not memoized). *)
Definition digest_signing_effect (w w' : World) : Prop :=
  txRequest w' = txRequest w
  /\ (w' = w
      \/ (exists digestBuf a,
            memoized a w /\ this w' = this w
            /\ sent w' = (sent w ++ [SignCommand (keyId (this w)) digestBuf])%list)
      \/ (exists digestBuf,
            truthyString (address (this w)) = None
            /\ sent w' = (sent w ++ [SignCommand (keyId (this w)) digestBuf;
                                     GetPublicKeyCommand (keyId (this w))])%list)).

Module Failing.

(** ethers whose recovery fails for [v = 27] and yields the signer for
    [v = 28]. *)
#[export] Instance ethers27 : Ethers := {|
  keccak256_raw := StandIn.hash;
  recoverAddress _ _ _ v :=
    if v =? 27 then Failed "recovery" else Returned StandIn.signerAddress;
  fromIcap _ := Failed "icap";
  getBytes _ := Returned [];
  hashMessage _ := Returned "0x";
  TypedDataEncoder_hash _ := Returned "0x";
  Signature_serialized r s v := Returned (r +:+ s);
  Transaction_from _ := Returned {| unsignedHash := "0x"; payload := "" |};
  Transaction_serialized tx signature := Returned signature
|}.

(** ethers whose recovery yields someone else for [v = 27] and fails for
    [v = 28]. *)
#[export] Instance ethers28 : Ethers := {|
  keccak256_raw := StandIn.hash;
  recoverAddress _ _ _ v :=
    if v =? 27 then Returned StandIn.otherAddress else Failed "recovery";
  fromIcap _ := Failed "icap";
  getBytes _ := Returned [];
  hashMessage _ := Returned "0x";
  TypedDataEncoder_hash _ := Returned "0x";
  Signature_serialized r s v := Returned (r +:+ s);
  Transaction_from _ := Returned {| unsignedHash := "0x"; payload := "" |};
  Transaction_serialized tx signature := Returned signature
|}.

(** A key store whose responses carry no [PublicKey] and no [Signature]. *)
#[export] Instance kms_empty : Kms := {|
  respond _ _ _ := Returned None
|}.

(** A request whose recipient is a promise that rejects. *)
Definition request_rejecting : gmap string JsProp :=
  <["from" := Plain (VString StandIn.otherAddress)]>
    (<["to" := Promise (Failed "no such name")]> ∅).

End Failing.

(** ** Calls in flight

    [getAddress] has one [await].  Between the sending of its GetPublicKey
    command and the arrival of the response any other code of the program
    runs: another call can be started, and a method whose [Promise.all]
    has rejected (on a property of the request, or on the Sign command) has
    returned to its caller with the fetch still on its way.  The two halves
    of [getAddress] are therefore two steps, and a history of the instance
    is a sequence of such steps in the order in which they happen. *)

Section InFlight.
Context {A : Asn1} {E : Ethers} {K : Kms}.

(** [getAddress] up to its [await]: the memoized address, or the command
    sent and the response that is on its way. *)
Definition getAddress_begin (w : World) : (string + Outcome (option Buffer)) * World :=
  match truthyString (address (this w)) with
  | Some a => (inl a, w)
  | None =>
      let command := GetPublicKeyCommand (keyId (this w)) in
      (inr (respond (client (this w)) (sent w) command),
       {| this := this w; txRequest := txRequest w;
          sent := sent w ++ [command]; assigned := assigned w |})
  end.

(** [getAddress] from its [await] on, when the response has arrived. *)
Definition getAddress_resume (response : Outcome (option Buffer)) : M string :=
  PublicKey ← lift (call response);
  match PublicKey with
  | None => throw MissingPublicKey
  | Some PublicKey =>
      a ← lift (getEthAddress PublicKey);
      _ ← set_address a;
      mret a
  end.

End InFlight.

(** The instance together with the responses of the fetches in flight. *)
Record Async : Type := {
  now : World;
  inflight : list (Outcome (option Buffer))
}.

(** The steps the methods are made of.  [Invoke_getAddress]: a call of
    [getAddress] starts, made by the caller or by [signTransaction] or
    [_signDigest] as a member of their [Promise.all].  [Arrive k]: the
    response to the [k]-th fetch in flight arrives and the rest of that
    [getAddress] runs.  [Send_Sign]: a Sign command is sent, as
    [_rawKmsSign] does for the key of the instance.  [Write_txRequest]:
    the request object gets new contents (a write of [signTransaction],
    or another request passed by the caller). *)
Inductive Event : Type :=
  | Invoke_getAddress
  | Arrive (k : nat)
  | Send_Sign (KeyId : string) (Message : Buffer)
  | Write_txRequest (request : gmap string JsProp).

Section Steps.
Context {A : Asn1} {E : Ethers} {K : Kms}.

Definition step (ev : Event) (s : Async) : Async :=
  match ev with
  | Invoke_getAddress =>
      match getAddress_begin (now s) with
      | (inl _, w) => {| now := w; inflight := inflight s |}
      | (inr response, w) => {| now := w; inflight := inflight s ++ [response] |}
      end
  | Arrive k =>
      match inflight s !! k with
      | Some response =>
          {| now := (getAddress_resume response (now s)).2;
             inflight := delete k (inflight s) |}
      | None => s
      end
  | Send_Sign KeyId Message =>
      {| now := (send (SignCommand KeyId Message) (now s)).2;
         inflight := inflight s |}
  | Write_txRequest request =>
      {| now := with_txRequest request (now s); inflight := inflight s |}
  end.

Definition play (evs : list Event) (s : Async) : Async :=
  fold_left (fun s ev => step ev s) evs s.

(** No [getAddress] is invoked while a fetch is in flight. *)
Fixpoint no_overlap (evs : list Event) (s : Async) : bool :=
  match evs with
  | [] => true
  | ev :: rest =>
      match ev with
      | Invoke_getAddress =>
          match inflight s with
          | [] => no_overlap rest (step ev s)
          | _ :: _ => false
          end
      | _ => no_overlap rest (step ev s)
      end
  end.

(** [signTransaction] on a request one of whose properties rejects before
    the response to the fetch arrives: both members of the [Promise.all]
    were started, the method throws the rejection, and the fetch of its
    [getAddress] stays in flight. *)
Definition signTransaction_rejected_early (s : Async) : option (Error * Async) :=
  match resolveProperties (txRequest (now s)) with
  | Throw e => Some (e, step Invoke_getAddress s)
  | Ok _ => None
  end.

End Steps.

(** Nothing is in flight and [this.address] was assigned at most once, or
    one fetch is in flight and [this.address] was never assigned. *)
Definition at_most_one_in_flight (s : Async) : Prop :=
  (inflight s = [] /\ assigned_at_most_once (now s))
  \/ (exists response,
        inflight s = [response]
        /\ address (this (now s)) = None
        /\ assigned (now s) = []).

(** * Theorems *)

(** ** Facts about hexadecimal printing and parsing *)

Lemma digitVal_hexDigit (d : Z) : 0 <= d < 16 -> digitVal (hexDigit d) = Some d.
Proof.
  intros Hd.
  assert (Hcases : d = 0 \/ d = 1 \/ d = 2 \/ d = 3 \/ d = 4 \/ d = 5 \/ d = 6 \/ d = 7 \/
                   d = 8 \/ d = 9 \/ d = 10 \/ d = 11 \/ d = 12 \/ d = 13 \/ d = 14 \/ d = 15)
    by lia.
  repeat (destruct Hcases as [-> | Hcases]; [reflexivity |]).
  subst d. reflexivity.
Qed.

Lemma string_app_nil (b : string) : "" +:+ b = b.
Proof. reflexivity. Qed.

Lemma string_app_cons (c : ascii) (a b : string) : String c a +:+ b = String c (a +:+ b).
Proof. reflexivity. Qed.

Ltac string_app := rewrite ?string_app_cons, ?string_app_nil.

Lemma string_app_assoc (a b c : string) : (a +:+ b) +:+ c = a +:+ (b +:+ c).
Proof. induction a as [| x a IH]; string_app; [reflexivity | now rewrite IH]. Qed.

Lemma string_length_app (a b : string) :
  String.length (a +:+ b) = (String.length a + String.length b)%nat.
Proof. induction a as [| x a IH]; string_app; simpl; [reflexivity | now rewrite IH]. Qed.

Lemma digits16_acc (fuel : nat) : forall n acc,
  digits16 fuel n acc = digits16 fuel n "" +:+ acc.
Proof.
  induction fuel as [| fuel IH]; intros n acc; simpl; [reflexivity |].
  destruct (n / 16 =? 0); [reflexivity |].
  rewrite (IH _ (String _ acc)), (IH _ (String _ "")).
  now rewrite string_app_assoc, string_app_cons, string_app_nil.
Qed.

Lemma parseDigits_app (radix : Z) (s1 : string) : forall s2 acc,
  parseDigits radix (s1 +:+ s2) acc =
  match parseDigits radix s1 acc with
  | Some v => parseDigits radix s2 v
  | None => None
  end.
Proof.
  induction s1 as [| c s1 IH]; intros s2 acc; string_app; simpl; [reflexivity |].
  destruct (digitVal c) as [d |]; [| reflexivity].
  destruct (d <? radix); [apply IH | reflexivity].
Qed.

Lemma parseDigits_digit (d acc : Z) :
  0 <= d < 16 -> parseDigits 16 (String (hexDigit d) "") acc = Some (16 * acc + d).
Proof.
  intros Hd. simpl. rewrite digitVal_hexDigit by assumption.
  destruct (Z.ltb_spec d 16); [reflexivity | lia].
Qed.

(** With enough fuel the digits printed denote the number. *)
Lemma parseDigits_digits16 (fuel : nat) : forall n,
  0 <= n < 16 ^ Z.of_nat fuel ->
  parseDigits 16 (digits16 fuel n "") 0 = Some n.
Proof.
  induction fuel as [| fuel IH]; intros n Hn.
  - simpl in *. f_equal. lia.
  - rewrite Nat2Z.inj_succ, Z.pow_succ_r in Hn by lia.
    cbn [digits16].
    pose proof (Z.mod_pos_bound n 16 ltac:(lia)) as Hmod.
    pose proof (Z.div_mod n 16 ltac:(lia)) as Hdm.
    destruct (Z.eqb_spec (n / 16) 0) as [Hq | Hq].
    + rewrite parseDigits_digit by assumption. f_equal. lia.
    + rewrite digits16_acc, parseDigits_app.
      rewrite IH.
      * rewrite parseDigits_digit by assumption. f_equal. lia.
      * split; [apply Z.div_pos; lia |].
        apply Z.div_lt_upper_bound; lia.
Qed.

Lemma digits16_fuel_enough (n : Z) : 0 <= n -> n < 16 ^ Z.of_nat (digits16_fuel n).
Proof.
  intros Hn. unfold digits16_fuel.
  rewrite Nat2Z.inj_succ, Z2Nat.id by apply Z.log2_nonneg.
  destruct (Z.eq_dec n 0) as [-> | Hnz]; [simpl; lia |].
  pose proof (Z.log2_spec n ltac:(lia)) as [_ Hup].
  eapply Z.lt_le_trans; [exact Hup |].
  apply Z.pow_le_mono_l. lia.
Qed.

Lemma digits16_nonempty (fuel : nat) (n : Z) : digits16 (S fuel) n "" <> "".
Proof.
  cbn [digits16]. destruct (n / 16 =? 0); [discriminate |].
  rewrite digits16_acc. destruct (digits16 fuel (n / 16) ""); discriminate.
Qed.

Lemma parseNonEmpty_toString16 (n : Z) : 0 <= n -> parseNonEmpty 16 (toString16 n) = Some n.
Proof.
  intros Hn. unfold toString16.
  destruct (Z.ltb_spec n 0); [lia |].
  pose proof (digits16_nonempty (Z.to_nat (Z.log2 n)) n) as Hne.
  pose proof (parseDigits_digits16 (digits16_fuel n) n
                (conj Hn (digits16_fuel_enough n Hn))) as Hparse.
  unfold digits16_fuel in *.
  destruct (digits16 _ n "") eqn:E; [congruence | exact Hparse].
Qed.

(** [BigInt(`0x${x.toString(16)}`)] gives [x] back when [x] is not negative ... *)
Lemma BigInt_of_hex_toString16 (n : Z) :
  0 <= n -> BigInt_of_string ("0x" +:+ toString16 n) = Some n.
Proof. intros Hn. cbn. now apply parseNonEmpty_toString16. Qed.

(** ... and is a [SyntaxError] when it is: the minus sign follows the prefix. *)
Lemma BigInt_of_hex_toString16_neg (n : Z) :
  n < 0 -> BigInt_of_string ("0x" +:+ toString16 n) = None.
Proof.
  intros Hn. unfold toString16.
  destruct (Z.ltb_spec n 0); [reflexivity | lia].
Qed.

(** ** [toHex] *)

Lemma parseDigits_toString16 (n : Z) : 0 <= n -> parseDigits 16 (toString16 n) 0 = Some n.
Proof.
  intros Hn. pose proof (parseNonEmpty_toString16 n Hn) as H.
  unfold parseNonEmpty in H. destruct (toString16 n); [discriminate | exact H].
Qed.

(** The digits printed are as many as the number needs, and no more. *)
Lemma digits16_length (fuel : nat) : forall n,
  0 < n < 16 ^ Z.of_nat fuel ->
  16 ^ (Z.of_nat (String.length (digits16 fuel n "")) - 1) <= n
  < 16 ^ Z.of_nat (String.length (digits16 fuel n "")).
Proof.
  induction fuel as [| fuel IH]; intros n Hn.
  - simpl in Hn. lia.
  - rewrite Nat2Z.inj_succ, Z.pow_succ_r in Hn by lia.
    cbn [digits16].
    pose proof (Z.mod_pos_bound n 16 ltac:(lia)) as Hmod.
    pose proof (Z.div_mod n 16 ltac:(lia)) as Hdm.
    destruct (Z.eqb_spec (n / 16) 0) as [Hq | Hq].
    + simpl. lia.
    + assert (Hq' : 0 < n / 16 < 16 ^ Z.of_nat fuel).
      { split; [pose proof (Z.div_pos n 16); lia |].
        apply Z.div_lt_upper_bound; lia. }
      specialize (IH _ Hq').
      rewrite digits16_acc, string_length_app. simpl String.length.
      set (len := String.length (digits16 fuel (n / 16) "")) in *.
      assert (Hlen : (0 < len)%nat).
      { destruct len; [simpl in IH; lia | lia]. }
      replace (Z.of_nat (len + 1) - 1) with (Z.succ (Z.of_nat len - 1)) by lia.
      replace (Z.of_nat (len + 1)) with (Z.succ (Z.of_nat len)) by lia.
      rewrite !Z.pow_succ_r by lia. lia.
Qed.

Lemma toString16_length (n : Z) :
  0 < n ->
  16 ^ (Z.of_nat (String.length (toString16 n)) - 1) <= n
  < 16 ^ Z.of_nat (String.length (toString16 n)).
Proof.
  intros Hn. unfold toString16.
  destruct (Z.ltb_spec n 0); [lia |].
  apply digits16_length. split; [assumption | apply digits16_fuel_enough; lia].
Qed.

Lemma odd_mod2 (n : nat) : negb (Nat.eqb (n mod 2) 0) = Nat.odd n.
Proof.
  rewrite <- Nat.bit0_mod, Nat.bit0_odd. now destruct (Nat.odd n).
Qed.

Lemma BigInt_of_toHex (x : Z) : 0 <= x -> BigInt_of_string (toHex x) = Some x.
Proof.
  intros Hx. unfold toHex.
  destruct (negb _); cbn;
    [apply parseDigits_toString16 | apply parseNonEmpty_toString16]; assumption.
Qed.

(** C6.  For every non-negative [x], [toHex x] is ["0x"] followed by the
    natural hexadecimal digits of [x], preceded by one ["0"] exactly when
    those digits are odd in number; so the digits after the prefix are even
    in number, nothing else is added or removed (the natural digits are the
    shortest that denote [x]: no leading zero, no fixed width), and
    [BigInt] reads the string back as [x]. *)
Theorem toHex_even_length_roundtrip (x : Z) :
  0 <= x ->
  toHex x =
    "0x" +:+ (if Nat.odd (String.length (toString16 x))
              then "0" +:+ toString16 x else toString16 x)
  /\ Nat.even (String.length (string_drop 2 (toHex x))) = true
  /\ BigInt_of_string (toHex x) = Some x
  /\ (0 < x ->
      16 ^ (Z.of_nat (String.length (toString16 x)) - 1) <= x
      < 16 ^ Z.of_nat (String.length (toString16 x)))
  /\ (x = 0 -> toString16 x = "0").
Proof.
  intros Hx. unfold toHex. rewrite odd_mod2.
  split; [| split; [| split; [| split]]].
  - destruct (Nat.odd _); reflexivity.
  - destruct (Nat.odd (String.length (toString16 x))) eqn:Hodd.
    + change (Nat.even (S (String.length (toString16 x))) = true).
      now rewrite Nat.even_succ.
    + change (Nat.even (String.length (toString16 x)) = true).
      now rewrite <- Nat.negb_odd, Hodd.
  - rewrite <- odd_mod2. now apply BigInt_of_toHex.
  - apply toString16_length.
  - intros ->. reflexivity.
Qed.

Lemma toHex_even_length_roundtrip_witness :
  0 <= 4095 /\ toHex 4095 = "0x0fff" /\ BigInt_of_string (toHex 4095) = Some 4095.
Proof.
  split; [lia |].
  pose proof (toHex_even_length_roundtrip 4095 ltac:(lia)) as (H & _ & Hp & _).
  split; [exact H | exact Hp].
Defined.

(** ** Low-s normalisation *)

Lemma secp256k1N_odd : secp256k1N = 2 * secp256k1halfN + 1.
Proof. reflexivity. Qed.

Lemma flipS_unfold (s : Z) :
  flipS s = if s >? secp256k1N ÷ 2 then secp256k1N - s else s.
Proof. reflexivity. Qed.

Lemma flipS_low (s : Z) : s < secp256k1N -> 0 < s -> 0 < flipS s <= secp256k1halfN.
Proof.
  intros Hs Hpos. unfold flipS. rewrite Z.gtb_ltb.
  pose proof secp256k1N_odd.
  destruct (Z.ltb_spec secp256k1halfN s); lia.
Qed.

(** C5.  The map [s > n/2 ? n - s : s] applied by [getRsSignature] is
    idempotent on every [s] with [0 < s < n]. *)
Theorem flipS_idempotent (s : Z) :
  0 < s < secp256k1N -> flipS (flipS s) = flipS s.
Proof.
  intros [Hpos Hs].
  pose proof (flipS_low s Hs Hpos) as [_ Hle].
  unfold flipS at 1. rewrite Z.gtb_ltb.
  destruct (Z.ltb_spec secp256k1halfN (flipS s)); [lia | reflexivity].
Qed.

Lemma flipS_idempotent_witness :
  0 < secp256k1N - 1 < secp256k1N
  /\ flipS (secp256k1N - 1) = 1
  /\ flipS (flipS (secp256k1N - 1)) = flipS (secp256k1N - 1).
Proof.
  assert (H : 0 < secp256k1N - 1 < secp256k1N) by (unfold secp256k1N; lia).
  split; [exact H |].
  split; [reflexivity | exact (flipS_idempotent _ H)].
Defined.

(** ** [decodeEcdsaSig] and [getRsSignature] *)

Lemma BigInt_of_hex_cases (n : Z) :
  of_option SyntaxError (BigInt_of_string ("0x" +:+ toString16 n)) =
  if n <? 0 then Throw SyntaxError else Ok n.
Proof.
  destruct (Z.ltb_spec n 0).
  - now rewrite BigInt_of_hex_toString16_neg.
  - now rewrite BigInt_of_hex_toString16.
Qed.

Section CryptoFacts.
Context {A : Asn1}.

Lemma decodeEcdsaSig_cases (signature : Buffer) :
  decodeEcdsaSig signature =
  match EcdsaSigAsnParse_decode signature with
  | Returned (r, s) => if (r <? 0) || (s <? 0) then Throw SyntaxError else Ok (r, s)
  | Failed what => Throw (External what)
  end.
Proof.
  unfold decodeEcdsaSig.
  destruct (EcdsaSigAsnParse_decode signature) as [[r s] | what]; [| reflexivity].
  cbn. rewrite !BigInt_of_hex_cases.
  destruct (r <? 0); [reflexivity |].
  cbn. destruct (s <? 0); reflexivity.
Qed.

Lemma decodeEcdsaSig_Ok (signature : Buffer) (r s : Z) :
  decodeEcdsaSig signature = Ok (r, s)
  <-> EcdsaSigAsnParse_decode signature = Returned (r, s) /\ 0 <= r /\ 0 <= s.
Proof.
  rewrite decodeEcdsaSig_cases.
  destruct (EcdsaSigAsnParse_decode signature) as [[r0 s0] | what].
  - destruct (Z.ltb_spec r0 0); destruct (Z.ltb_spec s0 0); cbn;
      (split; [intros [= <- <-] || discriminate 1 | intros ([= <- <-] & ? & ?)]);
      solve [auto | lia].
  - split; [discriminate 1 | intros ([=] & _)].
Qed.

Lemma getRsSignature_cases (signature : Buffer) :
  getRsSignature signature =
  match decodeEcdsaSig signature with
  | Ok (r, s) => Ok {| sig_r := toHex r; sig_s := toHex (flipS s) |}
  | Throw e => Throw e
  end.
Proof.
  unfold getRsSignature. destruct (decodeEcdsaSig signature) as [[r s] | e]; reflexivity.
Qed.

(** C4, as the code has it.  [decodeEcdsaSig] returns exactly the two
    numbers the DER decoder read, whenever neither is negative: the pair
    it returns is never negative, and it is returned whatever its size,
    as no comparison with zero or with the group order is made. *)
Theorem decodeEcdsaSig_returns_what_was_encoded (signature : Buffer) (r s : Z) :
  decodeEcdsaSig signature = Ok (r, s)
  <-> EcdsaSigAsnParse_decode signature = Returned (r, s) /\ 0 <= r /\ 0 <= s.
Proof. exact (decodeEcdsaSig_Ok signature r s). Qed.

(** C1.  When the decoded signature is [(r, s)] with [0 < s < n],
    [getRsSignature] returns an [s] string that denotes [n - s] if
    [s > n/2] and [s] otherwise, a number that is at most [n/2], and an
    [r] string that denotes [r]. *)
Theorem getRsSignature_low_s (signature : Buffer) (r s : Z) :
  decodeEcdsaSig signature = Ok (r, s) ->
  0 < s < secp256k1N ->
  exists sig,
    getRsSignature signature = Ok sig
    /\ BigInt_of_string (sig_s sig)
       = Some (if s >? secp256k1N ÷ 2 then secp256k1N - s else s)
    /\ (if s >? secp256k1N ÷ 2 then secp256k1N - s else s) <= secp256k1N ÷ 2
    /\ BigInt_of_string (sig_r sig) = Some r.
Proof.
  intros Hdec [Hpos Hs].
  pose proof (proj1 (decodeEcdsaSig_Ok _ _ _) Hdec) as (_ & Hr & _).
  pose proof (flipS_low s Hs Hpos) as [Hflip Hle].
  rewrite getRsSignature_cases, Hdec.
  eexists; split; [reflexivity |]. cbn [sig_r sig_s].
  rewrite <- !flipS_unfold.
  split; [| split].
  - apply BigInt_of_toHex. lia.
  - exact Hle.
  - now apply BigInt_of_toHex.
Qed.

End CryptoFacts.

Lemma getRsSignature_low_s_witness :
  @decodeEcdsaSig Der.asn1 sig_high_s = Ok (1, secp256k1N - 1)
  /\ 0 < secp256k1N - 1 < secp256k1N
  /\ exists sig,
       @getRsSignature Der.asn1 sig_high_s = Ok sig
       /\ BigInt_of_string (sig_s sig)
          = Some (if secp256k1N - 1 >? secp256k1N ÷ 2
                  then secp256k1N - (secp256k1N - 1) else secp256k1N - 1)
       /\ (if secp256k1N - 1 >? secp256k1N ÷ 2
           then secp256k1N - (secp256k1N - 1) else secp256k1N - 1) <= secp256k1N ÷ 2
       /\ BigInt_of_string (sig_r sig) = Some 1.
Proof.
  assert (Hdec : @decodeEcdsaSig Der.asn1 sig_high_s = Ok (1, secp256k1N - 1))
    by (vm_compute; reflexivity).
  assert (Hs : 0 < secp256k1N - 1 < secp256k1N) by (unfold secp256k1N; lia).
  split; [exact Hdec |]. split; [exact Hs |].
  exact (getRsSignature_low_s sig_high_s 1 (secp256k1N - 1) Hdec Hs).
Defined.

(** C4 fails as stated: a well-formed signature structure that encodes
    [r = 0] and [s = n] is decoded to exactly these two numbers. *)
Lemma decodeEcdsaSig_out_of_range :
  @decodeEcdsaSig Der.asn1 sig_out_of_range = Ok (0, secp256k1N)
  /\ ~ (0 < 0 < secp256k1N)
  /\ ~ (0 < secp256k1N < secp256k1N).
Proof.
  split; [vm_compute; reflexivity |]. split; lia.
Qed.

(** ** [determineCorrectV] *)

(** Closes the cases of a statement once the recoveries are known. *)
Ltac settle_cases :=
  repeat split; intros;
  repeat match goal with
    | H : exists _, _ |- _ => destruct H
    | H : _ /\ _ |- _ => destruct H
    end;
  simplify_eq; try congruence; try contradiction; eauto 8.

Section RecoveryFacts.
Context {E : Ethers}.

Lemma isCorrectV_returned (expected : string) (msg : Buffer) (r s : string) (v : Z) (a : string) :
  recoverAddress msg r s v = Returned a ->
  isCorrectV expected msg r s v = Ok (String.eqb (toLowerCase a) (toLowerCase expected)).
Proof. intros Hrec. unfold isCorrectV. now rewrite Hrec. Qed.

Lemma isCorrectV_failed (expected : string) (msg : Buffer) (r s : string) (v : Z) (what : string) :
  recoverAddress msg r s v = Failed what ->
  isCorrectV expected msg r s v = Throw (External what).
Proof. intros Hrec. unfold isCorrectV. now rewrite Hrec. Qed.

(** C2.  [determineCorrectV] returns 27 when recovery with [v = 27] yields
    an address equal to the expected one up to letter case; otherwise,
    when that address differs, it returns 28 when recovery with [v = 28]
    yields a match; it throws its own error exactly when both candidates
    yield addresses and neither matches, and, the two recoveries having
    yielded addresses, it throws at all exactly then; it returns nothing
    but 27 or 28. *)
Theorem determineCorrectV_first_match (msg : Buffer) (r s expected : string) :
  (forall a27,
      recoverAddress msg r s 27 = Returned a27 ->
      toLowerCase a27 = toLowerCase expected ->
      determineCorrectV msg r s expected = Ok 27)
  /\ (forall a27 a28,
        recoverAddress msg r s 27 = Returned a27 ->
        toLowerCase a27 <> toLowerCase expected ->
        recoverAddress msg r s 28 = Returned a28 ->
        toLowerCase a28 = toLowerCase expected ->
        determineCorrectV msg r s expected = Ok 28)
  /\ (determineCorrectV msg r s expected = Throw NoCorrectV
      <-> exists a27 a28,
           recoverAddress msg r s 27 = Returned a27
           /\ recoverAddress msg r s 28 = Returned a28
           /\ toLowerCase a27 <> toLowerCase expected
           /\ toLowerCase a28 <> toLowerCase expected)
  /\ (forall a27 a28,
        recoverAddress msg r s 27 = Returned a27 ->
        recoverAddress msg r s 28 = Returned a28 ->
        ((exists e, determineCorrectV msg r s expected = Throw e)
         <-> toLowerCase a27 <> toLowerCase expected
             /\ toLowerCase a28 <> toLowerCase expected))
  /\ (forall v, determineCorrectV msg r s expected = Ok v -> v = 27 \/ v = 28).
Proof.
  unfold determineCorrectV.
  destruct (recoverAddress msg r s 27) as [a27 | w27] eqn:H27.
  2:{ rewrite (isCorrectV_failed _ _ _ _ _ _ H27). cbn. settle_cases. }
  rewrite (isCorrectV_returned _ _ _ _ _ _ H27). cbn.
  destruct (String.eqb_spec (toLowerCase a27) (toLowerCase expected)) as [E27 | N27].
  { settle_cases. }
  destruct (recoverAddress msg r s 28) as [a28 | w28] eqn:H28.
  2:{ rewrite (isCorrectV_failed _ _ _ _ _ _ H28). cbn. settle_cases. }
  rewrite (isCorrectV_returned _ _ _ _ _ _ H28). cbn.
  destruct (String.eqb_spec (toLowerCase a28) (toLowerCase expected)) as [E28 | N28];
    settle_cases.
Qed.

End RecoveryFacts.

Lemma determineCorrectV_first_match_witness :
  @recoverAddress StandIn.ethers [] "0x01" "0x01" 27 = Returned StandIn.otherAddress
  /\ toLowerCase StandIn.otherAddress <> toLowerCase StandIn.signerAddress
  /\ @recoverAddress StandIn.ethers [] "0x01" "0x01" 28 = Returned StandIn.signerAddress
  /\ @determineCorrectV StandIn.ethers [] "0x01" "0x01" (toLowerCase StandIn.signerAddress)
     = Ok 28.
Proof.
  assert (N27 : toLowerCase StandIn.otherAddress
                <> toLowerCase (toLowerCase StandIn.signerAddress)) by discriminate.
  split; [reflexivity |]. split; [discriminate |]. split; [reflexivity |].
  exact (proj1 (proj2 (@determineCorrectV_first_match StandIn.ethers [] "0x01" "0x01"
                         (toLowerCase StandIn.signerAddress)))
           StandIn.otherAddress StandIn.signerAddress eq_refl N27 eq_refl eq_refl).
Defined.

(** ** [getEthAddress] *)

Lemma u8_range (b : byte) : 0 <= u8 b < 256.
Proof. unfold u8. pose proof (Byte.to_N_bounded b). lia. Qed.

Lemma hexDigit_char (d : Z) :
  0 <= d < 16 ->
  isHexChar (hexDigit d) = true
  /\ inRange 65 70 (hexDigit d) = false
  /\ lowerChar (hexDigit d) = hexDigit d.
Proof.
  intros Hd.
  assert (Hcases : d = 0 \/ d = 1 \/ d = 2 \/ d = 3 \/ d = 4 \/ d = 5 \/ d = 6 \/ d = 7 \/
                   d = 8 \/ d = 9 \/ d = 10 \/ d = 11 \/ d = 12 \/ d = 13 \/ d = 14 \/ d = 15)
    by lia.
  repeat (destruct Hcases as [-> | Hcases]; [now vm_compute |]).
  subst d. now vm_compute.
Qed.

Lemma hexByte_chars (b : byte) :
  string_forallb isHexChar (hexByte b) = true
  /\ string_existsb (inRange 65 70) (hexByte b) = false
  /\ toLowerCase (hexByte b) = hexByte b.
Proof.
  pose proof (u8_range b) as Hb.
  pose proof (Z.mod_pos_bound (u8 b) 16 ltac:(lia)) as Hlo.
  assert (Hhi : 0 <= u8 b / 16 < 16).
  { split; [apply Z.div_pos; lia | apply Z.div_lt_upper_bound; lia]. }
  destruct (hexDigit_char _ Hhi) as (h1 & h2 & h3).
  destruct (hexDigit_char _ Hlo) as (l1 & l2 & l3).
  unfold hexByte. cbn [string_forallb string_existsb toLowerCase].
  now rewrite h1, h2, h3, l1, l2, l3.
Qed.

Lemma string_forallb_app (p : ascii -> bool) (a b : string) :
  string_forallb p (a +:+ b) = string_forallb p a && string_forallb p b.
Proof.
  induction a as [| c a IH]; string_app; cbn [string_forallb]; [reflexivity |].
  now rewrite IH, andb_assoc.
Qed.

Lemma string_existsb_app (p : ascii -> bool) (a b : string) :
  string_existsb p (a +:+ b) = string_existsb p a || string_existsb p b.
Proof.
  induction a as [| c a IH]; string_app; cbn [string_existsb]; [reflexivity |].
  now rewrite IH, orb_assoc.
Qed.

Lemma toLowerCase_app (a b : string) :
  toLowerCase (a +:+ b) = toLowerCase a +:+ toLowerCase b.
Proof.
  induction a as [| c a IH]; string_app; cbn [toLowerCase]; string_app; [reflexivity |].
  now rewrite IH.
Qed.

Lemma hexBytes_chars (bs : Buffer) :
  string_forallb isHexChar (hexBytes bs) = true
  /\ string_existsb (inRange 65 70) (hexBytes bs) = false
  /\ toLowerCase (hexBytes bs) = hexBytes bs
  /\ String.length (hexBytes bs) = (2 * length bs)%nat.
Proof.
  induction bs as [| b bs (IH1 & IH2 & IH3 & IH4)]; [now cbn |].
  destruct (hexByte_chars b) as (h1 & h2 & h3).
  cbn [hexBytes].
  rewrite string_forallb_app, string_existsb_app, toLowerCase_app, string_length_app.
  rewrite h1, h2, h3, IH1, IH2, IH3, IH4. cbn [length]. repeat split; reflexivity || (cbn; lia).
Qed.

Lemma hexBytes_app (a b : Buffer) : hexBytes (a ++ b)%list = hexBytes a +:+ hexBytes b.
Proof.
  induction a as [| x a IH]; cbn [hexBytes app]; [reflexivity |].
  now rewrite IH, string_app_assoc.
Qed.

Lemma string_drop_app (a b : string) : string_drop (String.length a) (a +:+ b) = b.
Proof. induction a as [| c a IH]; [reflexivity | exact IH]. Qed.

(** The last forty characters of a hexlified 32-byte digest spell its last
    twenty bytes. *)
Lemma slice_last_hexlify (h : Buffer) :
  length h = 32%nat -> slice_last 40 (hexlify h) = hexBytes (skipn 12 h).
Proof.
  intros Hlen. unfold slice_last, hexlify.
  rewrite <- (firstn_skipn 12 h) at 1 2.
  rewrite hexBytes_app, <- string_app_assoc.
  assert (Hpre : String.length ("0x" +:+ hexBytes (firstn 12 h)) = 26%nat).
  { rewrite string_length_app.
    destruct (hexBytes_chars (firstn 12 h)) as (_ & _ & _ & ->).
    rewrite length_firstn, Hlen. reflexivity. }
  assert (Hsuf : String.length (hexBytes (skipn 12 h)) = 40%nat).
  { destruct (hexBytes_chars (skipn 12 h)) as (_ & _ & _ & ->).
    rewrite length_skipn, Hlen. reflexivity. }
  rewrite string_length_app, Hpre, Hsuf.
  change (26 + 40 - 40)%nat with 26%nat. rewrite <- Hpre.
  apply string_drop_app.
Qed.

Lemma lowerChar_upperChar (c : ascii) : lowerChar (upperChar c) = lowerChar c.
Proof. destruct c as [[] [] [] [] [] [] [] []]; reflexivity. Qed.

Lemma checksumCase_bounded (n : nat) : forall chars hashed,
  (String.length chars <= n)%nat ->
  String.length (checksumCase chars hashed) = String.length chars
  /\ toLowerCase (checksumCase chars hashed) = toLowerCase chars.
Proof.
  induction n as [| n IH]; intros chars hashed Hn.
  - destruct chars; [split; reflexivity | cbn in Hn; lia].
  - destruct chars as [| c0 [| c1 rest]]; try (split; reflexivity).
    destruct hashed as [| h hashed]; [split; reflexivity |].
    cbn [checksumCase String.length toLowerCase].
    cbn [String.length] in Hn.
    destruct (IH rest hashed ltac:(lia)) as [-> ->].
    split; [reflexivity |].
    destruct (8 <=? u8 h / 16), (8 <=? u8 h mod 16);
      now rewrite ?lowerChar_upperChar.
Qed.

Lemma checksumCase_spec (chars : string) (hashed : Buffer) :
  String.length (checksumCase chars hashed) = String.length chars
  /\ toLowerCase (checksumCase chars hashed) = toLowerCase chars.
Proof. now apply (checksumCase_bounded (String.length chars)). Qed.

Section AddressFacts.
Context {A : Asn1} {E : Ethers}.

(** What ethers [getAddress] makes of ["0x"] and forty lower-case hex
    characters. *)
Lemma ethers_getAddress_lowercase (bs : Buffer) :
  length bs = 20%nat ->
  ethers_getAddress ("0x" +:+ hexBytes bs) =
  Ok ("0x" +:+ checksumCase (hexBytes bs)
                 (firstn 20 (keccak256_raw (charCodes (hexBytes bs))))).
Proof.
  intros Hlen.
  destruct (hexBytes_chars bs) as (Hhex & Hup & Hlow & Hl).
  unfold ethers_getAddress, isAddressString, isMixedCase, getChecksumAddress.
  change (startsWith "0x" ("0x" +:+ hexBytes bs)) with true. cbv iota.
  rewrite toLowerCase_app, Hlow.
  change (toLowerCase "0x") with "0x".
  change (string_drop 2 ("0x" +:+ hexBytes bs)) with (hexBytes bs).
  rewrite Hl, Hlen, Hhex. cbn [Nat.mul Nat.add Nat.eqb andb].
  rewrite string_existsb_app, Hup. reflexivity.
Qed.

(** C3.  When the public-key structure decodes to a 65-byte point and the
    hash of its last 64 bytes has 32 bytes, [getEthAddress] drops the one
    leading byte, hashes the 64 that remain, keeps the last 20 bytes of
    the hash, and returns their hex digits, checksum-cased, behind
    ["0x"]: 42 characters in all. *)
Theorem getEthAddress_checksummed (publicKeyDer point : Buffer) :
  decodeEcdsaPubKey publicKeyDer = Ok point ->
  length point = 65%nat ->
  length (keccak256_raw (skipn 1 point)) = 32%nat ->
  let xy := skipn 1 point in
  let low20 := skipn 12 (keccak256_raw xy) in
  let chars := hexBytes low20 in
  length xy = 64%nat
  /\ length low20 = 20%nat
  /\ exists address,
       getEthAddress publicKeyDer = Ok address
       /\ address = "0x" +:+ checksumCase chars (firstn 20 (keccak256_raw (charCodes chars)))
       /\ toLowerCase address = "0x" +:+ chars
       /\ String.length address = 42%nat.
Proof.
  intros Hdec Hpoint Hhash xy low20 chars.
  assert (Hxy : length xy = 64%nat) by (subst xy; rewrite length_skipn; lia).
  assert (Hlow : length low20 = 20%nat) by (subst low20 xy; rewrite length_skipn; lia).
  split; [exact Hxy |]. split; [exact Hlow |].
  eexists. split; [| split; [reflexivity |]].
  - unfold getEthAddress. rewrite Hdec. cbn [mbind Result_bind].
    unfold keccak256. rewrite slice_last_hexlify by exact Hhash.
    now apply ethers_getAddress_lowercase.
  - destruct (checksumCase_spec chars (firstn 20 (keccak256_raw (charCodes chars))))
      as [Hlen Hcase].
    destruct (hexBytes_chars low20) as (_ & _ & Hlower & Hl).
    split.
    + rewrite toLowerCase_app, Hcase. subst chars. now rewrite Hlower.
    + rewrite string_length_app, Hlen. subst chars. rewrite Hl, Hlow. reflexivity.
Qed.

End AddressFacts.

Lemma getEthAddress_checksummed_witness :
  @decodeEcdsaPubKey Der.asn1 publicKey_der = Ok point_bytes
  /\ length point_bytes = 65%nat
  /\ length (@keccak256_raw StandIn.ethers (skipn 1 point_bytes)) = 32%nat
  /\ exists address,
       @getEthAddress Der.asn1 StandIn.ethers publicKey_der = Ok address
       /\ toLowerCase address = "0xb8b7b6b5b4b3b2b1b0afaeadacabaaa9a8a7a6a5"
       /\ String.length address = 42%nat.
Proof.
  assert (Hdec : @decodeEcdsaPubKey Der.asn1 publicKey_der = Ok point_bytes)
    by (vm_compute; reflexivity).
  split; [exact Hdec |]. split; [reflexivity |]. split; [reflexivity |].
  destruct (@getEthAddress_checksummed Der.asn1 StandIn.ethers publicKey_der point_bytes
              Hdec eq_refl eq_refl) as (_ & _ & address & Haddr & _ & Hlower & Hlen).
  exists address. split; [exact Haddr |]. split; [exact Hlower | exact Hlen].
Defined.

(** ** The constructor and [connect] *)

Lemma truthyString_Some (o : option string) (s : string) :
  truthyString o = Some s -> truthyString (Some s) = Some s /\ s <> "".
Proof.
  destruct o as [s' |]; [| discriminate]. cbn.
  destruct (String.eqb_spec s' ""); [discriminate |].
  intros [= ->]. destruct (String.eqb_spec s ""); [contradiction | auto].
Qed.

Lemma new_AwsKmsSigner_region (env : option string) (config : AwsKmsSignerConfig)
    (p : option Provider) :
  truthyString (Some (config_region (client (new_AwsKmsSigner env config p))))
  = Some (config_region (client (new_AwsKmsSigner env config p))).
Proof.
  unfold new_AwsKmsSigner. cbn [client config_region].
  destruct (truthyString (Config.region config)) eqn:Hc.
  { now apply truthyString_Some in Hc. }
  destruct (truthyString env) eqn:He.
  { now apply truthyString_Some in He. }
  reflexivity.
Qed.

(** C10.  Take a signer made by the constructor from any configuration, at
    any later moment of its life (whatever address it has memoized).
    [connect] returns an instance with the same key id and the same region,
    with no credentials on its client (so the default chain; neither the
    explicit credentials nor the profile of the original configuration are
    carried over, though the original client had them), with the provider
    given, and with no memoized address. *)
Theorem connect_keeps_keyId_and_region
    (env env' : option string) (config : AwsKmsSignerConfig)
    (p : option Provider) (memo : option string) (p' : Provider) :
  let made := new_AwsKmsSigner env config p in
  let this := {| provider := provider made; address := memo;
                 keyId := keyId made; client := client made |} in
  let connected := connect env' this p' in
  keyId connected = Config.keyId config
  /\ config_region (client connected) = config_region (client made)
  /\ config_credentials (client connected) = None
  /\ address connected = None
  /\ provider connected = Some p'
  /\ (is_Some (Config.credentials config) \/ is_Some (truthyString (Config.profile config))
      -> is_Some (config_credentials (client made))).
Proof.
  intros made this connected.
  pose proof (new_AwsKmsSigner_region env config p) as Hregion.
  subst connected this made.
  unfold connect, new_AwsKmsSigner in *. cbn in *.
  rewrite Hregion.
  repeat (split; [reflexivity |]).
  intros [[c ->] | [pr ->]]; [eauto |].
  destruct (Config.credentials config); eauto.
Qed.

Lemma connect_keeps_keyId_and_region_witness :
  is_Some (config_credentials (client StandIn.signer))
  /\ config_credentials (client (connect None StandIn.signer "https://rpc.example")) = None
  /\ config_region (client (connect None StandIn.signer "https://rpc.example")) = "eu-west-1".
Proof.
  pose proof (connect_keeps_keyId_and_region None None
                {| Config.keyId := "key-1"; Config.region := Some "eu-west-1";
                   Config.profile := Some "dev"; Config.credentials := None |}
                None None "https://rpc.example") as (_ & Hregion & Hcred & _ & _ & Hhad).
  split; [apply Hhad; right; eexists; reflexivity |].
  split; [exact Hcred | exact Hregion].
Defined.

(** ** The signer: rules for the monad *)

Lemma preserves_bind {T U} (I : World -> Prop) (m : M T) (k : T -> M U) :
  preserves I m -> (forall a, preserves I (k a)) -> preserves I (m ≫= k).
Proof.
  intros Hm Hk w Hw. specialize (Hm w Hw).
  unfold mbind, M_bind. destruct (m w) as [[a | e] w']; cbn in *; [now apply Hk | exact Hm].
Qed.

Lemma preserves_pure {T} (I : World -> Prop) (m : M T) :
  (forall w, (m w).2 = w) -> preserves I m.
Proof. intros Hm w Hw. now rewrite Hm. Qed.

Lemma preserves_settle {T} (I : World -> Prop) (m : M T) :
  preserves I m -> preserves I (settle m).
Proof.
  intros Hm w Hw. specialize (Hm w Hw). unfold settle. now destruct (m w).
Qed.

Lemma returns_bind {T U} (Q : T -> Prop) (Q' : U -> Prop) (P : Error -> Prop)
    (m : M T) (k : T -> M U) :
  returns Q P m -> (forall a, Q a -> returns Q' P (k a)) -> returns Q' P (m ≫= k).
Proof.
  intros Hm Hk w. specialize (Hm w). unfold mbind, M_bind.
  destruct (m w) as [[a | e] w']; cbn in *; [now apply Hk | exact Hm].
Qed.

Lemma returns_lift {T} (Q : T -> Prop) (P : Error -> Prop) (r : Result T) :
  result_in Q P r -> returns Q P (lift r).
Proof. intros Hr w. exact Hr. Qed.

Lemma returns_settle {T} (Q : T -> Prop) (P P' : Error -> Prop) (m : M T) :
  returns Q P m -> returns (result_in Q P) P' (settle m).
Proof. intros Hm w. specialize (Hm w). unfold settle. now destruct (m w). Qed.

Lemma returns_weaken {T} (Q Q' : T -> Prop) (P : Error -> Prop) (m : M T) :
  (forall a, Q a -> Q' a) -> returns Q P m -> returns Q' P m.
Proof.
  intros HQ Hm w. specialize (Hm w). destruct (m w).1; cbn in *; auto.
Qed.

Lemma call_notMismatch {T} (o : Outcome T) (e : Error) : call o = Throw e -> notMismatch e.
Proof. destruct o; [discriminate | intros [= <-]; exact Logic.I]. Qed.

Lemma call_result {T} (o : Outcome T) : result_in (fun _ => True) notMismatch (call o).
Proof. destruct o; exact Logic.I. Qed.

(** ** [getAddress] *)

Section AddressMemo.
Context {A : Asn1} {E : Ethers} {K : Kms}.

Lemma getEthAddress_Ok (publicKeyDer : Buffer) (a : string) :
  getEthAddress publicKeyDer = Ok a -> a <> "".
Proof.
  unfold getEthAddress.
  destruct (decodeEcdsaPubKey publicKeyDer) as [point | e]; [| discriminate].
  cbn [mbind Result_bind]. unfold ethers_getAddress.
  set (tail := slice_last 40 _).
  change (startsWith "0x" ("0x" +:+ tail)) with true. cbv iota.
  change (isIcapString ("0x" +:+ tail)) with false.
  destruct (isAddressString _); [| discriminate].
  destruct (_ || _); [| discriminate].
  intros [= <-]. discriminate.
Qed.

Lemma getEthAddress_Throw (publicKeyDer : Buffer) (e : Error) :
  getEthAddress publicKeyDer = Throw e -> notMismatch e.
Proof.
  unfold getEthAddress, decodeEcdsaPubKey.
  destruct (EcdsaPubKey_decode publicKeyDer) as [point | what]; [| intros [= <-]; exact Logic.I].
  cbn [call mbind Result_bind]. unfold ethers_getAddress.
  destruct (isAddressString _).
  - destruct (_ || _); [discriminate | intros [= <-]; exact Logic.I].
  - destruct (isIcapString _); [apply call_notMismatch | intros [= <-]; exact Logic.I].
Qed.

(** Everything [getAddress] can do. *)
Lemma getAddress_cases (w : World) :
  (exists a, memoized a w /\ getAddress w = (Ok a, w))
  \/ (truthyString (address (this w)) = None
      /\ exists r w',
          getAddress w = (r, w')
          /\ txRequest w' = txRequest w
          /\ sent w' = (sent w ++ [GetPublicKeyCommand (keyId (this w))])%list
          /\ ((exists e, r = Throw e /\ notMismatch e
                         /\ this w' = this w /\ assigned w' = assigned w)
              \/ (exists a, r = Ok a /\ a <> ""
                            /\ this w' = with_address a (this w)
                            /\ assigned w' = (assigned w ++ [a])%list))).
Proof.
  unfold getAddress, memoized.
  unfold mbind at 1, M_bind, get_this. cbv beta iota.
  destruct (truthyString (address (this w))) as [a |] eqn:Hmemo.
  { left. exists a. destruct (address (this w)) as [a' |]; [| discriminate].
    cbn in Hmemo. destruct (String.eqb_spec a' ""); [discriminate |].
    injection Hmemo as ->. auto. }
  right. split; [reflexivity |].
  unfold mbind, M_bind, send. cbv beta iota. rewrite Hmemo.
  destruct (respond _ _ _) as [[pk |] | what]; cbn [call].
  - unfold lift. destruct (getEthAddress pk) as [a | e] eqn:Haddr.
    + eexists _, _. split; [reflexivity |]. cbn.
      repeat (split; [reflexivity |]).
      right. exists a. repeat split. eapply getEthAddress_Ok, Haddr.
    + eexists _, _. split; [reflexivity |]. cbn.
      repeat (split; [reflexivity |]).
      left. exists e. repeat split. eapply getEthAddress_Throw, Haddr.
  - eexists _, _. split; [reflexivity |]. cbn.
    repeat (split; [reflexivity |]).
    left. eexists. repeat split.
  - eexists _, _. split; [reflexivity |]. cbn.
    repeat (split; [reflexivity |]).
    left. eexists. repeat split.
Qed.

End AddressMemo.

(** ** What the methods keep *)

Ltac keeps :=
  repeat first
    [ solve [auto 2]
    | apply preserves_pure; intros ?; reflexivity
    | apply preserves_settle
    | apply preserves_bind; [| intros ?] ].

Section SignerKeeps.
Context {A : Asn1} {E : Ethers} {K : Kms}.
Variable I : World -> Prop.
Hypothesis I_sign : forall KeyId Message, preserves I (send (SignCommand KeyId Message)).
Hypothesis I_getAddress : preserves I getAddress.
Hypothesis I_to : forall v, preserves I (update_txRequest <["to" := v]>).
Hypothesis I_from : forall v, preserves I (update_txRequest <["from" := v]>).
Hypothesis I_delete : preserves I (update_txRequest (delete "from")).

Lemma preserves__rawKmsSign (digest : Buffer) : preserves I (_rawKmsSign digest).
Proof.
  unfold _rawKmsSign. keeps.
  match goal with o : option Buffer |- _ => destruct o end; keeps.
Qed.

Lemma preserves__signDigest (digestHex : string) : preserves I (_signDigest digestHex).
Proof. unfold _signDigest. pose proof preserves__rawKmsSign. keeps; auto. Qed.

Lemma preserves_build_and_sign : preserves I signTransaction_build_and_sign.
Proof. unfold signTransaction_build_and_sign. pose proof preserves__signDigest. keeps. Qed.

Lemma preserves_signTransaction : preserves I signTransaction.
Proof.
  unfold signTransaction. keeps.
  match goal with p : JsValue * JsValue |- _ => destruct p as [from to] end.
  pose proof preserves_build_and_sign.
  keeps.
  - destruct (negb (isNullish to)); keeps.
  - destruct (negb (isNullish from)); keeps.
  - destruct (isTruthy _); keeps.
    destruct (negb (String.eqb _ _)); keeps.
Qed.

Lemma preserves_signMessage (message : string) : preserves I (signMessage message).
Proof. unfold signMessage. pose proof preserves__signDigest. keeps. Qed.

Lemma preserves_signTypedData (data : string) : preserves I (signTypedData data).
Proof. unfold signTypedData. pose proof preserves__signDigest. keeps. Qed.

Hypothesis I_pass : forall request, preserves I (pass_txRequest request).

Lemma preserves_perform (op : Operation) (w : World) : I w -> I (perform op w).
Proof.
  destruct op; cbn [perform].
  - apply I_getAddress.
  - apply preserves_bind; [apply I_pass | intros _; apply preserves_signTransaction].
  - apply preserves_signMessage.
  - apply preserves_signTypedData.
Qed.

Lemma preserves_run (ops : list Operation) : forall w, I w -> I (run ops w).
Proof.
  induction ops as [| op ops IH]; intros w Hw; [exact Hw |].
  apply IH, preserves_perform, Hw.
Qed.

End SignerKeeps.

(** ** Memoization of the address *)

Section Memoization.
Context {A : Asn1} {E : Ethers} {K : Kms}.

Lemma memoized_truthy (a : string) (w : World) :
  memoized a w -> truthyString (address (this w)) = Some a.
Proof.
  intros [-> Ha]. cbn. destruct (String.eqb_spec a ""); [contradiction | reflexivity].
Qed.

Lemma getAddress_memoized (a : string) (w : World) :
  memoized a w -> getAddress w = (Ok a, w).
Proof.
  intros Hm. pose proof (memoized_truthy a w Hm) as Ht.
  destruct (getAddress_cases w) as [(a' & Hm' & Hget) | (Hnone & _)]; [| congruence].
  pose proof (memoized_truthy a' w Hm'). congruence.
Qed.

Lemma getAddress_Ok (w w' : World) (a : string) :
  getAddress w = (Ok a, w') ->
  memoized a w'
  /\ (address (this w) = None ->
      sent w' = (sent w ++ [GetPublicKeyCommand (keyId (this w))])%list
      /\ assigned w' = (assigned w ++ [a])%list).
Proof.
  intros Hget.
  destruct (getAddress_cases w) as [(a' & Hm' & Hget') | (Hnone & r & w1 & Hget' & _ & Hsent & Hr)].
  - rewrite Hget in Hget'. injection Hget' as -> ->.
    split; [exact Hm' |]. destruct Hm' as [Hm' _]. congruence.
  - rewrite Hget in Hget'. injection Hget' as <- <-.
    destruct Hr as [(e & [=] & _) | (a' & [= <-] & Ha & Hthis & Hassigned)].
    split; [| auto].
    unfold memoized. rewrite Hthis. auto.
Qed.

Lemma at_most_once_getAddress : preserves assigned_at_most_once getAddress.
Proof.
  intros w Hw.
  destruct (getAddress_cases w) as [(a & _ & ->) | (Hnone & r & w' & -> & _ & _ & Hr)];
    [exact Hw |].
  cbn [snd]. unfold assigned_at_most_once, memoized in *.
  destruct Hw as [[Hfresh Hnever] | (a & Hm & _)].
  2:{ pose proof (memoized_truthy a w Hm). congruence. }
  destruct Hr as [(e & _ & _ & -> & ->) | (a & _ & Ha & -> & ->)].
  - left. auto.
  - right. exists a. rewrite Hnever. auto.
Qed.

(** *** Calls in flight *)

(** [getAddress] is its two halves, one after the other. *)
Lemma getAddress_split (w : World) :
  getAddress w =
  match getAddress_begin w with
  | (inl a, w') => (Ok a, w')
  | (inr response, w') => getAddress_resume response w'
  end.
Proof.
  unfold getAddress, getAddress_begin, getAddress_resume.
  unfold mbind at 1, M_bind, get_this. cbv beta iota.
  destruct (truthyString (address (this w))) as [a |]; [reflexivity |].
  unfold mbind at 1 3, M_bind, send, lift. cbv beta iota zeta.
  destruct (respond _ _ _) as [[pk |] | what]; reflexivity.
Qed.

(** An invocation followed at once by the arrival of its response is a
    call of [getAddress] that nothing interleaves with. *)
Lemma awaited_getAddress (w : World) :
  step (Arrive 0) (step Invoke_getAddress {| now := w; inflight := [] |})
  = {| now := (getAddress w).2; inflight := [] |}.
Proof.
  rewrite getAddress_split. cbn [step now inflight].
  destruct (getAddress_begin w) as [[a | response] w']; reflexivity.
Qed.

(** Everything the second half can do: fail and leave the world as it is,
    or assign the address derived from the key that arrived. *)
Lemma getAddress_resume_cases (response : Outcome (option Buffer)) (w : World) :
  (exists e, getAddress_resume response w = (Throw e, w))
  \/ (exists a PublicKey,
        response = Returned (Some PublicKey)
        /\ getEthAddress PublicKey = Ok a
        /\ a <> ""
        /\ getAddress_resume response w
           = (Ok a, {| this := with_address a (this w); txRequest := txRequest w;
                       sent := sent w; assigned := (assigned w ++ [a])%list |})).
Proof.
  unfold getAddress_resume. unfold mbind at 1, M_bind, lift. cbv beta iota.
  destruct response as [[pk |] | what]; cbn [call]; eauto.
  unfold mbind, M_bind, lift, set_address, mret, M_ret. cbv beta iota.
  destruct (getEthAddress pk) as [a | e] eqn:Haddr; eauto.
  right. exists a, pk.
  split; [reflexivity |]. split; [exact Haddr |].
  split; [exact (getEthAddress_Ok pk a Haddr) | reflexivity].
Qed.

(** One step: each assignment uses up one fetch in flight, and each fetch
    in flight was sent. *)
Lemma step_counts (ev : Event) (s : Async) :
  (length (assigned (now (step ev s))) + length (inflight (step ev s))
   + length (fetches (now s))
   <= length (assigned (now s)) + length (inflight s)
      + length (fetches (now (step ev s))))%nat.
Proof.
  destruct ev as [| k | KeyId Message | request]; cbn [step].
  - unfold getAddress_begin.
    destruct (truthyString (address (this (now s)))); cbn [now inflight]; [lia |].
    unfold fetches. cbn [sent assigned]. rewrite filter_app, !length_app.
    change (length (filter isGetPublicKey [GetPublicKeyCommand (keyId (this (now s)))]))
      with 1%nat.
    cbn. lia.
  - destruct (inflight s !! k) as [response |] eqn:Hk; [| lia].
    cbn [now inflight].
    assert (Hlen : (length (delete k (inflight s)) + 1 = length (inflight s))%nat).
    { pose proof (lookup_lt_Some _ _ _ Hk). rewrite length_delete by eauto. lia. }
    destruct (getAddress_resume_cases response (now s))
      as [(e & ->) | (a & pk & _ & _ & _ & ->)]; cbn [snd]; [lia |].
    unfold fetches. cbn [sent assigned]. rewrite length_app. cbn. lia.
  - cbn [now inflight]. unfold fetches, send. cbn [snd sent assigned].
    rewrite filter_app, length_app. cbn. lia.
  - cbn [now inflight]. unfold fetches. cbn. lia.
Qed.

Lemma play_counts (evs : list Event) : forall s,
  (length (assigned (now (play evs s))) + length (inflight (play evs s))
   + length (fetches (now s))
   <= length (assigned (now s)) + length (inflight s)
      + length (fetches (now (play evs s))))%nat.
Proof.
  induction evs as [| ev evs IH]; intros s; [cbn; lia |].
  change (play (ev :: evs) s) with (play evs (step ev s)).
  pose proof (step_counts ev s). pose proof (IH (step ev s)). lia.
Qed.

(** With the address memoized and nothing in flight, no step changes the
    address, assigns it, or fetches. *)
Lemma step_memoized (a : string) (ev : Event) (s : Async) :
  memoized a (now s) -> inflight s = [] ->
  memoized a (now (step ev s))
  /\ inflight (step ev s) = []
  /\ assigned (now (step ev s)) = assigned (now s)
  /\ fetches (now (step ev s)) = fetches (now s).
Proof.
  intros Hm Hin.
  destruct ev as [| k | KeyId Message | request]; cbn [step].
  - unfold getAddress_begin. rewrite (memoized_truthy a _ Hm). auto.
  - rewrite Hin. cbn. auto.
  - cbn [now inflight]. split; [exact Hm |]. split; [exact Hin |].
    split; [reflexivity |].
    unfold fetches, send. cbn [snd sent]. rewrite filter_app. cbn. apply app_nil_r.
  - cbn [now inflight]. auto.
Qed.

Lemma play_memoized (a : string) (evs : list Event) : forall s,
  memoized a (now s) -> inflight s = [] ->
  memoized a (now (play evs s))
  /\ inflight (play evs s) = []
  /\ assigned (now (play evs s)) = assigned (now s)
  /\ fetches (now (play evs s)) = fetches (now s).
Proof.
  induction evs as [| ev evs IH]; intros s Hm Hin; [auto |].
  change (play (ev :: evs) s) with (play evs (step ev s)).
  destruct (step_memoized a ev s Hm Hin) as (Hm' & Hin' & Ha & Hf).
  destruct (IH (step ev s) Hm' Hin') as (Hm2 & Hin2 & Ha2 & Hf2).
  split; [exact Hm2 |]. split; [exact Hin2 |]. split; congruence.
Qed.

(** A step that is not an invocation during a fetch keeps the count. *)
Lemma step_at_most_one_in_flight (ev : Event) (s : Async) :
  (ev = Invoke_getAddress -> inflight s = []) ->
  at_most_one_in_flight s -> at_most_one_in_flight (step ev s).
Proof.
  intros Hquiet Hs.
  destruct ev as [| k | KeyId Message | request]; cbn [step].
  - specialize (Hquiet eq_refl).
    destruct Hs as [[_ Honce] | (response & Hin & _)]; [| congruence].
    unfold getAddress_begin.
    destruct (truthyString (address (this (now s)))) as [a |] eqn:Hmemo.
    { left. cbn [now inflight]. auto. }
    right. eexists. cbn [now inflight this assigned]. rewrite Hquiet.
    split; [reflexivity |].
    destruct Honce as [[Hunset Hnever] | (a & Hm & _)]; [auto |].
    rewrite (memoized_truthy a _ Hm) in Hmemo. discriminate.
  - destruct Hs as [[Hin Honce] | (response & Hin & Hunset & Hnever)].
    { rewrite Hin. cbn. left. auto. }
    rewrite Hin. destruct k as [| k]; cbn; [| right; eauto].
    left. split; [reflexivity |].
    destruct (getAddress_resume_cases response (now s))
      as [(e & ->) | (a & pk & _ & _ & Ha & ->)]; cbn [snd].
    + left. auto.
    + right. exists a. unfold memoized. cbn. rewrite Hnever. auto.
  - exact Hs.
  - exact Hs.
Qed.

Lemma play_no_overlap (evs : list Event) : forall s,
  no_overlap evs s = true ->
  at_most_one_in_flight s -> at_most_one_in_flight (play evs s).
Proof.
  induction evs as [| ev evs IH]; intros s Hno Hs; [exact Hs |].
  change (play (ev :: evs) s) with (play evs (step ev s)).
  cbn [no_overlap] in Hno.
  apply IH.
  - destruct ev; [destruct (inflight s); [exact Hno | discriminate] | exact Hno ..].
  - apply step_at_most_one_in_flight; [| exact Hs].
    intros ->. destruct (inflight s); [reflexivity | discriminate].
Qed.

Lemma play_app (evs evs' : list Event) (s : Async) :
  play (evs ++ evs') s = play evs' (play evs s).
Proof. apply fold_left_app. Qed.

Lemma no_overlap_app (evs evs' : list Event) : forall s,
  no_overlap evs s = true -> no_overlap evs' (play evs s) = true ->
  no_overlap (evs ++ evs') s = true.
Proof.
  induction evs as [| ev evs IH]; intros s Hno Hno'; [exact Hno' |].
  change (play (ev :: evs) s) with (play evs (step ev s)) in Hno'.
  cbn [app no_overlap] in *.
  destruct ev; [destruct (inflight s); [| discriminate] | ..]; now apply IH.
Qed.

(** Calls made one after the other, each over before the next is made and
    with nothing of it left in flight, are steps without overlap. *)
Lemma run_as_steps (ops : list Operation) (w : World) :
  exists evs,
    no_overlap evs {| now := w; inflight := [] |} = true
    /\ play evs {| now := w; inflight := [] |} = {| now := run ops w; inflight := [] |}.
Proof.
  set (reached := fun w' : World =>
         exists evs, no_overlap evs {| now := w; inflight := [] |} = true
                     /\ play evs {| now := w; inflight := [] |}
                        = {| now := w'; inflight := [] |}).
  assert (Hone : forall ev w' w'', reached w' ->
             no_overlap ev {| now := w'; inflight := [] |} = true ->
             play ev {| now := w'; inflight := [] |} = {| now := w''; inflight := [] |} ->
             reached w'').
  { intros ev w' w'' (evs & Hno & Hplay) Hev Hstep. exists (evs ++ ev)%list.
    split; [apply no_overlap_app; [exact Hno | now rewrite Hplay] |].
    now rewrite play_app, Hplay. }
  apply (preserves_run reached).
  - intros KeyId Message w' Hw'.
    apply (Hone [Send_Sign KeyId Message] w' _ Hw'); reflexivity.
  - intros w' Hw'.
    apply (Hone [Invoke_getAddress; Arrive 0%nat] w' _ Hw'); [reflexivity |].
    apply awaited_getAddress.
  - intros v w' Hw'.
    apply (Hone [Write_txRequest (<["to" := v]> (txRequest w'))] w' _ Hw'); reflexivity.
  - intros v w' Hw'.
    apply (Hone [Write_txRequest (<["from" := v]> (txRequest w'))] w' _ Hw'); reflexivity.
  - intros w' Hw'.
    apply (Hone [Write_txRequest (delete "from" (txRequest w'))] w' _ Hw'); reflexivity.
  - intros request w' Hw'.
    apply (Hone [Write_txRequest request] w' _ Hw'); reflexivity.
  - exists []. split; reflexivity.
Qed.

(** A [signTransaction] that rejects early is the [signTransaction] above
    cut short: the error is the one reported there, the commands sent are
    the same, and once the response has arrived the instance is as it is
    there. *)
Lemma signTransaction_rejected_early_settles (w : World) (e : Error) (s1 : Async) :
  signTransaction_rejected_early {| now := w; inflight := [] |} = Some (e, s1) ->
  (signTransaction w).1 = Throw e
  /\ txRequest (now s1) = txRequest w
  /\ this (now s1) = this w
  /\ assigned (now s1) = assigned w
  /\ step (Arrive 0) s1 = {| now := (signTransaction w).2; inflight := [] |}.
Proof.
  intros Hearly.
  assert (Hs1 : s1 = step Invoke_getAddress {| now := w; inflight := [] |}
                /\ resolveProperties (txRequest w) = Throw e).
  { unfold signTransaction_rejected_early in Hearly. cbn [now] in Hearly.
    destruct (resolveProperties (txRequest w)) as [p | e']; [discriminate |].
    injection Hearly as <- <-. split; reflexivity. }
  destruct Hs1 as [-> Hres].
  assert (Hrun : signTransaction w = (Throw e, (getAddress w).2)).
  { unfold signTransaction.
    unfold mbind at 1 2 3, M_bind, get_txRequest, settle, lift. cbv beta iota.
    destruct (getAddress w) as [r w1]. cbn [snd]. now rewrite Hres. }
  rewrite Hrun, awaited_getAddress. cbn [fst snd].
  split; [reflexivity |].
  cbn [step now inflight]. unfold getAddress_begin.
  destruct (truthyString (address (this w))); cbn; auto.
Qed.

(** C8, as the code has it.  [this.address] is assigned only when a
    public-key fetch completes with a key, once for that fetch and with
    the address derived from that key: over any steps of any calls, the
    assignments made and the fetches still in flight are no more than the
    fetches sent.  On a fresh instance, as long as no [getAddress] is
    invoked while a fetch is in flight, the field is assigned at most once
    (and at most one fetch is in flight).  And once the field holds an
    address and no fetch is in flight, whatever is called later and
    however the calls overlap, [getAddress] returns that address and
    changes nothing: the field keeps its value, is not assigned again, and
    no further public-key fetch is sent. *)
Theorem getAddress_memoized_without_overlap (s : Async) (evs evs' : list Event) :
  let s1 := play evs s in
  let s2 := play evs' s1 in
  (length (assigned (now s1)) + length (inflight s1) + length (fetches (now s))
   <= length (assigned (now s)) + length (inflight s) + length (fetches (now s1)))%nat
  /\ (address (this (now s)) = None ->
      assigned (now s) = [] ->
      inflight s = [] ->
      no_overlap evs s = true ->
      (length (assigned (now s1)) <= 1)%nat /\ (length (inflight s1) <= 1)%nat)
  /\ (forall a,
        memoized a (now s1) ->
        inflight s1 = [] ->
        getAddress (now s2) = (Ok a, now s2)
        /\ address (this (now s2)) = Some a
        /\ assigned (now s2) = assigned (now s1)
        /\ fetches (now s2) = fetches (now s1)
        /\ inflight s2 = [])
  /\ (forall response w a w',
        getAddress_resume response w = (Ok a, w') ->
        memoized a w'
        /\ assigned w' = (assigned w ++ [a])%list
        /\ sent w' = sent w
        /\ exists PublicKey,
             response = Returned (Some PublicKey) /\ getEthAddress PublicKey = Ok a)
  /\ (forall w response w1,
        getAddress_begin w = (inr response, w1) ->
        truthyString (address (this w)) = None
        /\ response = respond (client (this w)) (sent w) (GetPublicKeyCommand (keyId (this w)))
        /\ sent w1 = (sent w ++ [GetPublicKeyCommand (keyId (this w))])%list
        /\ this w1 = this w
        /\ assigned w1 = assigned w).
Proof.
  intros s1 s2.
  split; [apply play_counts |]. split; [| split; [| split]].
  - intros Hunset Hnever Hin Hno.
    assert (Hs1 : at_most_one_in_flight s1).
    { apply play_no_overlap; [exact Hno |]. left. split; [exact Hin |]. left. auto. }
    destruct Hs1 as [[-> Honce] | (response & -> & _ & ->)]; [| cbn; lia].
    destruct Honce as [[_ ->] | (a & _ & ->)]; cbn; lia.
  - intros a Hm Hin.
    destruct (play_memoized a evs' s1 Hm Hin) as (Hm' & Hin' & Ha & Hf).
    split; [exact (getAddress_memoized a _ Hm') |].
    split; [exact (proj1 Hm') |]. auto.
  - intros response w a w' Hresume.
    destruct (getAddress_resume_cases response w)
      as [(e & He) | (a' & pk & Hresp & Haddr & Ha & Hok)]; [congruence |].
    rewrite Hresume in Hok. injection Hok as -> ->.
    split; [split; [reflexivity | exact Ha] |].
    split; [reflexivity |]. split; [reflexivity |]. eauto.
  - intros w response w1. unfold getAddress_begin.
    destruct (truthyString (address (this w))); [discriminate |].
    intros [= <- <-]. cbn. auto.
Qed.

End Memoization.

(** ** [signTransaction] *)

Section TransactionFacts.
Context {A : Asn1} {E : Ethers} {K : Kms}.

Lemma getAddress_txRequest (w : World) : txRequest (getAddress w).2 = txRequest w.
Proof.
  destruct (getAddress_cases w) as [(a & _ & ->) | (_ & r & w' & -> & Hreq & _)];
    [reflexivity | exact Hreq].
Qed.

Lemma getAddress_signs (w : World) : signs (getAddress w).2 = signs w.
Proof.
  destruct (getAddress_cases w) as [(a & _ & ->) | (_ & r & w' & -> & _ & Hsent & _)];
    [reflexivity |].
  unfold signs. cbn [snd]. rewrite Hsent, filter_app. cbn. apply app_nil_r.
Qed.

Lemma getAddress_returns : returns (fun _ => True) notMismatch getAddress.
Proof.
  intros w.
  destruct (getAddress_cases w) as [(a & _ & ->) | (_ & r & w' & -> & _ & _ & Hr)];
    [exact Logic.I |].
  destruct Hr as [(e & -> & He & _) | (a & -> & _)]; [exact He | exact Logic.I].
Qed.

Lemma getRsSignature_result (signature : Buffer) :
  result_in (fun _ => True) notMismatch (getRsSignature signature).
Proof.
  rewrite getRsSignature_cases, decodeEcdsaSig_cases.
  destruct (EcdsaSigAsnParse_decode signature) as [[r s] | what]; [| exact Logic.I].
  destruct (_ || _); exact Logic.I.
Qed.

Lemma determineCorrectV_result (msg : Buffer) (r s expected : string) :
  result_in (fun _ => True) notMismatch (determineCorrectV msg r s expected).
Proof.
  unfold determineCorrectV, isCorrectV.
  destruct (recoverAddress msg r s 27); [| exact Logic.I]. cbn.
  destruct (String.eqb _ _); [exact Logic.I |].
  destruct (recoverAddress msg r s 28); [| exact Logic.I]. cbn.
  destruct (String.eqb _ _); exact Logic.I.
Qed.

Lemma _rawKmsSign_returns (digest : Buffer) :
  returns (fun _ => True) notMismatch (_rawKmsSign digest).
Proof.
  unfold _rawKmsSign.
  eapply returns_bind with (Q := fun _ => True); [intros w; exact Logic.I | intros self _].
  eapply returns_bind with (Q := fun _ => True); [intros w; apply call_result | intros o _].
  destruct o; [apply returns_lift, getRsSignature_result | intros w; exact Logic.I].
Qed.

Lemma _signDigest_returns (digestHex : string) :
  returns (fun _ => True) notMismatch (_signDigest digestHex).
Proof.
  unfold _signDigest.
  eapply returns_bind; [apply returns_lift, call_result | intros digestBuf _].
  eapply returns_bind; [apply returns_settle, _rawKmsSign_returns | intros rs Hrs].
  eapply returns_bind; [apply returns_settle, getAddress_returns | intros addr Haddr].
  eapply returns_bind; [apply returns_lift, Hrs | intros rs' _].
  eapply returns_bind; [apply returns_lift, Haddr | intros addr' _].
  eapply returns_bind; [apply returns_lift, determineCorrectV_result | intros v _].
  apply returns_lift, call_result.
Qed.

Lemma signTransaction_build_and_sign_returns :
  returns (fun _ => True) notMismatch signTransaction_build_and_sign.
Proof.
  unfold signTransaction_build_and_sign.
  eapply returns_bind with (Q := fun _ => True); [intros w; exact Logic.I | intros request _].
  eapply returns_bind; [apply returns_lift, call_result | intros tx _].
  eapply returns_bind; [apply _signDigest_returns | intros signature _].
  apply returns_lift, call_result.
Qed.

(** [signTransaction] up to the end of the address check, when the
    properties resolve and the address is obtained. *)
Lemma signTransaction_steps (w w1 : World) (from to : JsValue) (ethAddress : string) :
  resolveProperties (txRequest w) = Ok (from, to) ->
  getAddress w = (Ok ethAddress, w1) ->
  let request1 := if isNullish to then txRequest w else <["to" := Plain to]> (txRequest w) in
  let request2 := if isNullish from then request1 else <["from" := Plain from]> request1 in
  let declared := readProp request2 "from" in
  signTransaction w =
  if isTruthy declared then
    if String.eqb (toLowerCase (toStringOf declared)) (toLowerCase ethAddress) then
      signTransaction_build_and_sign (with_txRequest (delete "from" request2) w1)
    else
      (Throw (AddressMismatch (toStringOf declared) ethAddress), with_txRequest request2 w1)
  else signTransaction_build_and_sign (with_txRequest request2 w1).
Proof.
  intros Hres Hget request1 request2 declared.
  pose proof (getAddress_txRequest w) as Hreq. rewrite Hget in Hreq. cbn [snd] in Hreq.
  unfold signTransaction.
  unfold mbind at 1 2 3 4, M_bind, get_txRequest, settle, lift. cbv beta iota.
  rewrite Hget. cbv beta iota. rewrite Hres. cbv beta iota.
  subst declared request2 request1.
  destruct w1 as [this1 request sent1 assigned1]. cbn [txRequest] in Hreq. subst request.
  destruct (isNullish to), (isNullish from);
    cbv beta iota delta [negb update_txRequest mbind M_bind mret M_ret throw fst snd
                           this txRequest sent assigned with_txRequest];
    (destruct (isTruthy _); [| reflexivity]);
    destruct (String.eqb _ _); reflexivity.
Qed.

Lemma readProp_insert (request : gmap string JsProp) (k : string) (v : JsProp) :
  readProp (<[k := v]> request) k = v.
Proof. unfold readProp. now rewrite lookup_insert_eq. Qed.

(** C7.  Let the request's properties resolve, the signer's address be
    obtained, and the resolved [from] be a value that counts as present
    for the guard of the check (an object or a non-empty string): a
    declared address.  If it differs from the signer's
    address, letter case apart, [signTransaction] throws the mismatch
    error and no command is sent after the address was obtained, so no
    Sign command at all; if it is equal, letter case apart, the mismatch
    error is not thrown. *)
Theorem signTransaction_from_mismatch
    (w w1 : World) (from to : JsValue) (ethAddress : string) :
  resolveProperties (txRequest w) = Ok (from, to) ->
  getAddress w = (Ok ethAddress, w1) ->
  isTruthy (Plain from) = true ->
  let fromStr := toStringOf (Plain from) in
  (toLowerCase fromStr <> toLowerCase ethAddress ->
   exists w',
     signTransaction w = (Throw (AddressMismatch fromStr ethAddress), w')
     /\ sent w' = sent w1
     /\ signs w' = signs w)
  /\ (toLowerCase fromStr = toLowerCase ethAddress ->
      forall f a, (signTransaction w).1 <> Throw (AddressMismatch f a)).
Proof.
  intros Hres Hget Htruthy fromStr.
  rewrite (signTransaction_steps w w1 from to ethAddress Hres Hget).
  assert (Hnn : isNullish from = false) by (destruct from; cbn in *; congruence).
  rewrite Hnn, readProp_insert, Htruthy. fold fromStr.
  split.
  - intros Hne. destruct (String.eqb_spec (toLowerCase fromStr) (toLowerCase ethAddress));
      [contradiction |].
    eexists. split; [reflexivity |]. split; [reflexivity |].
    pose proof (getAddress_signs w) as Hsigns. rewrite Hget in Hsigns. exact Hsigns.
  - intros Heq f a. rewrite Heq, String.eqb_refl.
    pose proof (signTransaction_build_and_sign_returns
                  (with_txRequest (delete "from"
                     (<["from" := Plain from]>
                        (if isNullish to then txRequest w
                         else <["to" := Plain to]> (txRequest w)))) w1)) as Hret.
    intros Hthrow. rewrite Hthrow in Hret. exact Hret.
Qed.

(** The guard [if (txRequest.from)]: a [from] that resolves to the empty
    string is stored, found falsy, and not compared with the address; the
    method goes on to build the transaction from a request that still has
    it, and the mismatch error is not thrown. *)
Lemma signTransaction_empty_from_unchecked
    (w w1 : World) (to : JsValue) (ethAddress : string) :
  resolveProperties (txRequest w) = Ok (VString "", to) ->
  getAddress w = (Ok ethAddress, w1) ->
  signTransaction w =
    signTransaction_build_and_sign
      (with_txRequest
         (<["from" := Plain (VString "")]>
            (if isNullish to then txRequest w else <["to" := Plain to]> (txRequest w)))
         w1)
  /\ forall f a, (signTransaction w).1 <> Throw (AddressMismatch f a).
Proof.
  intros Hres Hget.
  rewrite (signTransaction_steps w w1 (VString "") to ethAddress Hres Hget).
  cbn [isNullish]. rewrite readProp_insert. cbn [isTruthy String.eqb negb].
  split; [reflexivity |].
  intros f a Hthrow.
  pose proof (signTransaction_build_and_sign_returns
                (with_txRequest
                   (<["from" := Plain (VString "")]>
                      (if isNullish to then txRequest w
                       else <["to" := Plain to]> (txRequest w))) w1)) as Hret.
  rewrite Hthrow in Hret. exact Hret.
Qed.

End TransactionFacts.

Lemma signTransaction_from_mismatch_witness :
  let w := StandIn.world StandIn.request_of_other in
  resolveProperties (txRequest w) = Ok (VString StandIn.otherAddress, VUndefined)
  /\ (@getAddress Der.asn1 StandIn.ethers StandIn.kms w).1 = Ok StandIn.signerAddress
  /\ isTruthy (Plain (VString StandIn.otherAddress)) = true
  /\ toLowerCase StandIn.otherAddress <> toLowerCase StandIn.signerAddress
  /\ exists w',
       @signTransaction Der.asn1 StandIn.ethers StandIn.kms w
       = (Throw (AddressMismatch StandIn.otherAddress StandIn.signerAddress), w')
       /\ sent w' = sent (@getAddress Der.asn1 StandIn.ethers StandIn.kms w).2
       /\ signs w' = signs w.
Proof.
  intros w.
  assert (Hres : resolveProperties (txRequest w)
                 = Ok (VString StandIn.otherAddress, VUndefined)) by (vm_compute; reflexivity).
  assert (Hget : @getAddress Der.asn1 StandIn.ethers StandIn.kms w
                 = (Ok StandIn.signerAddress,
                    (@getAddress Der.asn1 StandIn.ethers StandIn.kms w).2))
    by (vm_compute; reflexivity).
  assert (Hne : toLowerCase StandIn.otherAddress <> toLowerCase StandIn.signerAddress)
    by discriminate.
  split; [exact Hres |]. split; [vm_compute; reflexivity |].
  split; [reflexivity |]. split; [exact Hne |].
  exact (proj1 (@signTransaction_from_mismatch Der.asn1 StandIn.ethers StandIn.kms
                  w _ _ _ _ Hres Hget eq_refl) Hne).
Defined.

Lemma getAddress_memoized_without_overlap_witness :
  let s := {| now := StandIn.world ∅; inflight := [] |} in
  let evs := [Invoke_getAddress; Send_Sign "key-1" []; Arrive 0] in
  let evs' := [Send_Sign "key-1" []; Invoke_getAddress; Invoke_getAddress; Arrive 0;
               Write_txRequest StandIn.request] in
  let s0 := @step Der.asn1 StandIn.ethers StandIn.kms Invoke_getAddress s in
  let s0' := @step Der.asn1 StandIn.ethers StandIn.kms (Send_Sign "key-1" []) s0 in
  let s1 := @play Der.asn1 StandIn.ethers StandIn.kms evs s in
  let s2 := @play Der.asn1 StandIn.ethers StandIn.kms evs' s1 in
  (address (this (now s)) = None /\ assigned (now s) = [] /\ inflight s = []
   /\ @no_overlap Der.asn1 StandIn.ethers StandIn.kms evs s = true)
  /\ (memoized StandIn.signerAddress (now s1) /\ inflight s1 = [])
  /\ @getAddress_begin StandIn.kms (now s) = (inr (Returned (Some publicKey_der)), now s0)
  /\ @getAddress_resume Der.asn1 StandIn.ethers (Returned (Some publicKey_der)) (now s0')
     = (Ok StandIn.signerAddress, now s1)
  /\ (length (assigned (now s1)) <= 1)%nat
  /\ assigned (now s1) = [StandIn.signerAddress]
  /\ sent (now s0) = [GetPublicKeyCommand "key-1"]
  /\ @getAddress Der.asn1 StandIn.ethers StandIn.kms (now s2)
     = (Ok StandIn.signerAddress, now s2)
  /\ assigned (now s2) = assigned (now s1)
  /\ fetches (now s2) = fetches (now s1).
Proof.
  intros s evs evs' s0 s0' s1 s2.
  assert (Hmemo : memoized StandIn.signerAddress (now s1))
    by (split; [vm_compute; reflexivity | discriminate]).
  assert (Hin : inflight s1 = []) by (vm_compute; reflexivity).
  assert (Hbegin : @getAddress_begin StandIn.kms (now s)
                   = (inr (Returned (Some publicKey_der)), now s0))
    by (vm_compute; reflexivity).
  assert (Hresume : @getAddress_resume Der.asn1 StandIn.ethers
                      (Returned (Some publicKey_der)) (now s0')
                    = (Ok StandIn.signerAddress, now s1))
    by (vm_compute; reflexivity).
  destruct (@getAddress_memoized_without_overlap Der.asn1 StandIn.ethers StandIn.kms
              s evs evs') as (_ & Hfresh & Hlater & Hwrite & Hfetch).
  destruct (Hfresh eq_refl eq_refl eq_refl eq_refl) as [Honce _].
  destruct (Hlater _ Hmemo Hin) as (Hget & _ & Hassigned & Hfetches & _).
  destruct (Hwrite _ _ _ _ Hresume) as (_ & Hwritten & _).
  destruct (Hfetch _ _ _ Hbegin) as (_ & _ & Hsent & _).
  split; [split; [reflexivity | split; [reflexivity | split; reflexivity]] |].
  split; [split; [exact Hmemo | exact Hin] |].
  split; [exact Hbegin |]. split; [exact Hresume |].
  split; [exact Honce |]. split; [exact Hwritten |]. split; [exact Hsent |].
  split; [exact Hget |]. split; [exact Hassigned | exact Hfetches].
Defined.

(** C8 fails as stated: [signTransaction] on a request whose [to] rejects
    throws while the fetch of its [getAddress] is in flight; a [getAddress]
    called then finds the field unset and fetches again, and when the two
    responses have arrived the field has been assigned twice, after two
    GetPublicKey commands. *)
Lemma getAddress_assigned_twice_in_flight :
  let s := {| now := StandIn.world Failing.request_rejecting; inflight := [] |} in
  let s1 := @step Der.asn1 StandIn.ethers StandIn.kms Invoke_getAddress s in
  let s2 := @play Der.asn1 StandIn.ethers StandIn.kms
              [Invoke_getAddress; Arrive 0; Arrive 0] s1 in
  address (this (now s)) = None
  /\ assigned (now s) = []
  /\ sent (now s) = []
  /\ @signTransaction_rejected_early Der.asn1 StandIn.ethers StandIn.kms s
     = Some (External "no such name", s1)
  /\ address (this (now s1)) = None
  /\ inflight s1 = [Returned (Some publicKey_der)]
  /\ assigned (now s2) = [StandIn.signerAddress; StandIn.signerAddress]
  /\ sent (now s2) = [GetPublicKeyCommand "key-1"; GetPublicKeyCommand "key-1"]
  /\ inflight s2 = []
  /\ ~ (length (assigned (now s2)) <= 1)%nat.
Proof.
  intros s s1 s2.
  assert (Hassigned : assigned (now s2) = [StandIn.signerAddress; StandIn.signerAddress])
    by (vm_compute; reflexivity).
  split; [reflexivity |]. split; [reflexivity |]. split; [reflexivity |].
  split; [vm_compute; reflexivity |]. split; [vm_compute; reflexivity |].
  split; [vm_compute; reflexivity |]. split; [exact Hassigned |].
  split; [vm_compute; reflexivity |]. split; [vm_compute; reflexivity |].
  rewrite Hassigned. cbn. lia.
Qed.

(** ** What [signTransaction] does to the request and to the signer *)

Section FrameFacts.
Context {A : Asn1} {E : Ethers} {K : Kms}.

Lemma frame_signTransaction (w0 : World) : preserves (frame w0) signTransaction.
Proof.
  apply preserves_signTransaction.
  - intros KeyId Message w Hw. exact Hw.
  - intros w (Hreq & Hthis).
    destruct (getAddress_cases w) as
      [(a & _ & ->) | (Hnone & r & w' & -> & Hreq' & Hsent' & Hr)];
      [repeat split; assumption |].
    cbn [snd]. split; [now rewrite Hreq' |].
    destruct Hthis as [[Hthis Hassigned] | (a & _ & Ha & Hthis & _)].
    2:{ rewrite Hthis in Hnone. cbn in Hnone.
        destruct (String.eqb_spec a ""); [contradiction | discriminate]. }
    destruct Hr as [(e & _ & _ & -> & ->) | (a & _ & Ha & -> & ->)]; [left; auto |].
    right. exists a. rewrite <- Hthis, Hassigned. auto.
  - intros v w (Hreq & Hrest). split; [| exact Hrest].
    intros k Hfrom Hto. cbn. rewrite lookup_insert_ne by congruence. now apply Hreq.
  - intros v w (Hreq & Hrest). split; [| exact Hrest].
    intros k Hfrom Hto. cbn. rewrite lookup_insert_ne by congruence. now apply Hreq.
  - intros w (Hreq & Hrest). split; [| exact Hrest].
    intros k Hfrom Hto. cbn. rewrite lookup_delete_ne by congruence. now apply Hreq.
Qed.

Lemma build_and_sign_txRequest (w : World) :
  txRequest (signTransaction_build_and_sign w).2 = txRequest w.
Proof.
  apply (preserves_build_and_sign (fun w' => txRequest w' = txRequest w));
    [intros ? ? w' Hw'; exact Hw' | | reflexivity].
  intros w' Hw'. now rewrite getAddress_txRequest.
Qed.

(** C9, as the code has it.  [signTransaction] writes to the request
    object of the caller, in its [from] and [to] properties and nowhere
    else: every other property is as it was; and when the properties
    resolve, the address is obtained and the resolved [from] is present,
    [to] holds its resolved value (if that is not nullish) and [from] has
    been deleted if it passed the check and holds its resolved value if it
    did not.  On the signer it changes
    nothing but [this.address], assigned at most once and only when it
    was unset.  Whatever the resolved [from] is, when the properties
    resolve and the address is obtained [to] holds its resolved value (if
    that is not nullish). *)
Theorem signTransaction_writes_from_and_to (w : World) :
  let w' := (signTransaction w).2 in
  (forall k, k <> "from" -> k <> "to" -> txRequest w' !! k = txRequest w !! k)
  /\ keyId (this w') = keyId (this w)
  /\ client (this w') = client (this w)
  /\ provider (this w') = provider (this w)
  /\ ((this w' = this w /\ assigned w' = assigned w)
      \/ exists a,
           truthyString (address (this w)) = None
           /\ address (this w') = Some a
           /\ assigned w' = (assigned w ++ [a])%list)
  /\ (forall from to ethAddress w1,
        resolveProperties (txRequest w) = Ok (from, to) ->
        getAddress w = (Ok ethAddress, w1) ->
        isTruthy (Plain from) = true ->
        toLowerCase (toStringOf (Plain from)) = toLowerCase ethAddress ->
        txRequest w' !! "from" = None
        /\ txRequest w' !! "to"
           = if isNullish to then txRequest w !! "to" else Some (Plain to))
  /\ (forall from to ethAddress w1,
        resolveProperties (txRequest w) = Ok (from, to) ->
        getAddress w = (Ok ethAddress, w1) ->
        isTruthy (Plain from) = true ->
        toLowerCase (toStringOf (Plain from)) <> toLowerCase ethAddress ->
        txRequest w' !! "from" = Some (Plain from)
        /\ txRequest w' !! "to"
           = if isNullish to then txRequest w !! "to" else Some (Plain to))
  /\ (forall from to ethAddress w1,
        resolveProperties (txRequest w) = Ok (from, to) ->
        getAddress w = (Ok ethAddress, w1) ->
        txRequest w' !! "to"
        = if isNullish to then txRequest w !! "to" else Some (Plain to)).
Proof.
  intros w'.
  assert (Hframe : frame w w').
  { apply frame_signTransaction. split; [auto | left; auto]. }
  destruct Hframe as (Hreq & Hthis).
  split; [exact Hreq |].
  assert (Hfields : keyId (this w') = keyId (this w)
                    /\ client (this w') = client (this w)
                    /\ provider (this w') = provider (this w)).
  { destruct Hthis as [[-> _] | (a & _ & _ & -> & _)]; auto. }
  destruct Hfields as (Hk & Hc & Hp).
  repeat (split; [assumption |]).
  split.
  { destruct Hthis as [? | (a & Hnone & _ & Hthis & Hassigned)]; [left; assumption |].
    right. exists a. rewrite Hthis. auto. }
  split; [| split].
  - intros from to ethAddress w1 Hres Hget Htruthy Hmatch. subst w'.
    rewrite (signTransaction_steps w w1 from to ethAddress Hres Hget).
    assert (Hnn : isNullish from = false) by (destruct from; cbn in *; congruence).
    rewrite Hnn, readProp_insert, Htruthy, Hmatch, String.eqb_refl.
    rewrite build_and_sign_txRequest. cbn [with_txRequest txRequest].
    split; [apply lookup_delete_eq |].
    rewrite lookup_delete_ne, lookup_insert_ne by discriminate.
    destruct (isNullish to); [reflexivity | apply lookup_insert_eq].
  - intros from to ethAddress w1 Hres Hget Htruthy Hdiffer. subst w'.
    rewrite (signTransaction_steps w w1 from to ethAddress Hres Hget).
    assert (Hnn : isNullish from = false) by (destruct from; cbn in *; congruence).
    rewrite Hnn, readProp_insert, Htruthy.
    destruct (String.eqb_spec (toLowerCase (toStringOf (Plain from))) (toLowerCase ethAddress));
      [contradiction |].
    cbn [snd with_txRequest txRequest].
    split; [apply lookup_insert_eq |].
    rewrite lookup_insert_ne by discriminate.
    destruct (isNullish to); [reflexivity | apply lookup_insert_eq].
  - intros from to ethAddress w1 Hres Hget. subst w'.
    rewrite (signTransaction_steps w w1 from to ethAddress Hres Hget).
    assert (Hto : forall request : gmap string JsProp,
               (if isNullish from then request else <["from" := Plain from]> request) !! "to"
               = request !! "to").
    { intros request. destruct (isNullish from); [reflexivity |].
      now rewrite lookup_insert_ne by discriminate. }
    assert (Hstored : (if isNullish to then txRequest w
                       else <["to" := Plain to]> (txRequest w)) !! "to"
                      = if isNullish to then txRequest w !! "to" else Some (Plain to)).
    { destruct (isNullish to); [reflexivity | apply lookup_insert_eq]. }
    destruct (isTruthy _); [destruct (String.eqb _ _) |];
      rewrite ?build_and_sign_txRequest; cbn [snd with_txRequest txRequest];
      rewrite ?lookup_delete_ne by discriminate; now rewrite Hto.
Qed.

End FrameFacts.

Lemma signTransaction_writes_from_and_to_witness :
  let w := StandIn.world StandIn.request in
  let w' := (@signTransaction Der.asn1 StandIn.ethers StandIn.kms w).2 in
  resolveProperties (txRequest w)
  = Ok (VString (toLowerCase StandIn.signerAddress), VString StandIn.otherAddress)
  /\ (@getAddress Der.asn1 StandIn.ethers StandIn.kms w).1 = Ok StandIn.signerAddress
  /\ txRequest w' !! "from" = None
  /\ txRequest w' !! "to" = Some (Plain (VString StandIn.otherAddress))
  /\ txRequest w' !! "value" = txRequest w !! "value".
Proof.
  intros w w'.
  assert (Hres : resolveProperties (txRequest w)
                 = Ok (VString (toLowerCase StandIn.signerAddress),
                       VString StandIn.otherAddress)) by (vm_compute; reflexivity).
  assert (Hget : @getAddress Der.asn1 StandIn.ethers StandIn.kms w
                 = (Ok StandIn.signerAddress,
                    (@getAddress Der.asn1 StandIn.ethers StandIn.kms w).2))
    by (vm_compute; reflexivity).
  destruct (@signTransaction_writes_from_and_to Der.asn1 StandIn.ethers StandIn.kms w)
    as (Hother & _ & _ & _ & _ & Hprops & _ & Hstored).
  destruct (Hprops _ _ _ _ Hres Hget eq_refl eq_refl) as [Hfrom _].
  pose proof (Hstored _ _ _ _ Hres Hget) as Hto.
  split; [exact Hres |]. split; [vm_compute; reflexivity |].
  split; [exact Hfrom |]. split; [exact Hto |].
  apply Hother; discriminate.
Defined.

(** C9 fails as stated: after a successful [signTransaction] the request
    object of the caller has lost its [from] property, and its [to]
    property, a promise before the call, is the resolved string. *)
Lemma signTransaction_mutates_txRequest :
  let w := StandIn.world StandIn.request in
  let result := @signTransaction Der.asn1 StandIn.ethers StandIn.kms w in
  result.1 = Ok "0x010x01"
  /\ txRequest w !! "from" = Some (Plain (VString (toLowerCase StandIn.signerAddress)))
  /\ txRequest result.2 !! "from" = None
  /\ txRequest w !! "to" = Some (Promise (Returned (VString StandIn.otherAddress)))
  /\ txRequest result.2 !! "to" = Some (Plain (VString StandIn.otherAddress))
  /\ txRequest result.2 <> txRequest w.
Proof.
  intros w result.
  assert (Hbefore : txRequest w !! "from"
                    = Some (Plain (VString (toLowerCase StandIn.signerAddress))))
    by (vm_compute; reflexivity).
  assert (Hafter : txRequest result.2 !! "from" = None) by (vm_compute; reflexivity).
  split; [vm_compute; reflexivity |].
  split; [exact Hbefore |]. split; [exact Hafter |].
  split; [vm_compute; reflexivity |]. split; [vm_compute; reflexivity |].
  congruence.
Qed.

(** * Further properties of the code *)

(** ** [toHex] beyond the non-negative numbers *)

Lemma BigInt_of_toHex_neg (x : Z) : x < 0 -> BigInt_of_string (toHex x) = None.
Proof.
  intros Hx. unfold toHex, toString16.
  destruct (Z.ltb_spec x 0); [| lia].
  destruct (negb _); reflexivity.
Qed.

(** X1.  [BigInt] reads [toHex x] back as [x] when [x] is not negative and
    rejects it when [x] is negative: the minus sign of [toString(16)] ends
    up behind the prefix (and behind the padding zero). *)
Theorem toHex_parses_only_nonnegative (x : Z) :
  BigInt_of_string (toHex x) = if x <? 0 then None else Some x.
Proof.
  destruct (Z.ltb_spec x 0); [now apply BigInt_of_toHex_neg | now apply BigInt_of_toHex].
Qed.

Lemma hexDigit_lower (d : Z) : 0 <= d < 16 -> isLowerHexChar (hexDigit d) = true.
Proof.
  intros Hd.
  assert (Hcases : d = 0 \/ d = 1 \/ d = 2 \/ d = 3 \/ d = 4 \/ d = 5 \/ d = 6 \/ d = 7 \/
                   d = 8 \/ d = 9 \/ d = 10 \/ d = 11 \/ d = 12 \/ d = 13 \/ d = 14 \/ d = 15)
    by lia.
  repeat (destruct Hcases as [-> | Hcases]; [reflexivity |]).
  subst d. reflexivity.
Qed.

Lemma digits16_lower (fuel : nat) : forall n acc,
  string_forallb isLowerHexChar acc = true ->
  string_forallb isLowerHexChar (digits16 fuel n acc) = true.
Proof.
  induction fuel as [| fuel IH]; intros n acc Hacc; [exact Hacc |].
  cbn [digits16].
  assert (Hacc' : string_forallb isLowerHexChar (String (hexDigit (n mod 16)) acc) = true).
  { cbn [string_forallb]. rewrite hexDigit_lower, Hacc; [reflexivity |].
    apply Z.mod_pos_bound. lia. }
  destruct (n / 16 =? 0); [exact Hacc' | now apply IH].
Qed.

(** X2.  For a non-negative [x] the characters of [toHex x] behind ["0x"]
    are digits and the lower-case letters [a] to [f], at least two of
    them. *)
Theorem toHex_lowercase_digits (x : Z) :
  0 <= x ->
  exists digits,
    toHex x = "0x" +:+ digits
    /\ string_forallb isLowerHexChar digits = true
    /\ (2 <= String.length digits)%nat.
Proof.
  intros Hx. unfold toHex. eexists. split; [reflexivity |].
  assert (Hlow : string_forallb isLowerHexChar (toString16 x) = true).
  { unfold toString16. destruct (Z.ltb_spec x 0); [lia |]. now apply digits16_lower. }
  assert (Hne : (1 <= String.length (toString16 x))%nat).
  { unfold toString16. destruct (Z.ltb_spec x 0); [lia |].
    pose proof (digits16_nonempty (Z.to_nat (Z.log2 x)) x) as Hne.
    unfold digits16_fuel. destruct (digits16 _ x ""); [congruence | cbn; lia]. }
  rewrite odd_mod2.
  destruct (Nat.odd (String.length (toString16 x))) eqn:Hodd.
  - cbn [string_forallb String.length]. rewrite Hlow. split; [reflexivity | lia].
  - split; [exact Hlow |].
    destruct (String.length (toString16 x)) as [| [| len]]; [lia | discriminate | lia].
Qed.

Lemma toHex_lowercase_digits_witness :
  0 <= 2748 /\ exists digits,
    toHex 2748 = "0x" +:+ digits
    /\ string_forallb isLowerHexChar digits = true
    /\ (2 <= String.length digits)%nat.
Proof.
  split; [lia |]. exact (toHex_lowercase_digits 2748 ltac:(lia)).
Defined.

(** ** The normalisation of [s] *)

(** X3.  A signature component and its reflection [n - s] are sent to the
    same value: each pair [{s, n - s}] has one representative. *)
Theorem flipS_reflection (s : Z) :
  0 < s < secp256k1N -> flipS (secp256k1N - s) = flipS s.
Proof.
  intros [Hpos Hs]. pose proof secp256k1N_odd as Hodd.
  unfold flipS. rewrite !Z.gtb_ltb.
  destruct (Z.ltb_spec secp256k1halfN (secp256k1N - s));
    destruct (Z.ltb_spec secp256k1halfN s); lia.
Qed.

Lemma flipS_reflection_witness :
  0 < 5 < secp256k1N /\ flipS (secp256k1N - 5) = flipS 5.
Proof.
  assert (H : 0 < 5 < secp256k1N) by (unfold secp256k1N; lia).
  split; [exact H | exact (flipS_reflection 5 H)].
Defined.

Section SignatureStrings.
Context {A : Asn1}.

(** X4.  For every decoded signature [getRsSignature] returns; its [r]
    string denotes [r]; its [s] string denotes the normalised [s], a number
    from [0] to [n/2], as long as [s <= n]; for [s > n] the subtraction
    goes below zero and the [s] string is one [BigInt] rejects. *)
Theorem getRsSignature_of_decoded (signature : Buffer) (r s : Z) :
  decodeEcdsaSig signature = Ok (r, s) ->
  exists sig,
    getRsSignature signature = Ok sig
    /\ BigInt_of_string (sig_r sig) = Some r
    /\ (s <= secp256k1N ->
        BigInt_of_string (sig_s sig) = Some (flipS s) /\ 0 <= flipS s <= secp256k1halfN)
    /\ (secp256k1N < s -> BigInt_of_string (sig_s sig) = None).
Proof.
  intros Hdec.
  pose proof (proj1 (decodeEcdsaSig_Ok _ _ _) Hdec) as (_ & Hr & Hs).
  pose proof secp256k1N_odd as Hodd.
  rewrite getRsSignature_cases, Hdec.
  eexists. split; [reflexivity |]. cbn [sig_r sig_s].
  split; [now apply BigInt_of_toHex |].
  split.
  - intros Hle.
    assert (Hrange : 0 <= flipS s <= secp256k1halfN).
    { unfold flipS. rewrite Z.gtb_ltb. destruct (Z.ltb_spec secp256k1halfN s); lia. }
    split; [apply BigInt_of_toHex; lia | exact Hrange].
  - intros Hgt. apply BigInt_of_toHex_neg.
    unfold flipS. rewrite Z.gtb_ltb. destruct (Z.ltb_spec secp256k1halfN s); lia.
Qed.

End SignatureStrings.

Lemma getRsSignature_of_decoded_witness :
  @decodeEcdsaSig Der.asn1 sig_out_of_range = Ok (0, secp256k1N)
  /\ exists sig,
       @getRsSignature Der.asn1 sig_out_of_range = Ok sig
       /\ BigInt_of_string (sig_r sig) = Some 0
       /\ (secp256k1N <= secp256k1N ->
           BigInt_of_string (sig_s sig) = Some (flipS secp256k1N)
           /\ 0 <= flipS secp256k1N <= secp256k1halfN)
       /\ (secp256k1N < secp256k1N -> BigInt_of_string (sig_s sig) = None).
Proof.
  assert (Hdec : @decodeEcdsaSig Der.asn1 sig_out_of_range = Ok (0, secp256k1N))
    by (vm_compute; reflexivity).
  split; [exact Hdec |].
  exact (@getRsSignature_of_decoded Der.asn1 sig_out_of_range 0 secp256k1N Hdec).
Defined.

(** ** [determineCorrectV]: letter case and failures *)

Lemma lowerChar_idempotent (c : ascii) : lowerChar (lowerChar c) = lowerChar c.
Proof. destruct c as [[] [] [] [] [] [] [] []]; reflexivity. Qed.

Lemma toLowerCase_idempotent (s : string) : toLowerCase (toLowerCase s) = toLowerCase s.
Proof.
  induction s as [| c s IH]; [reflexivity |].
  cbn [toLowerCase]. now rewrite lowerChar_idempotent, IH.
Qed.

Section RecoveryMore.
Context {E : Ethers}.

(** X5.  The letter case of the expected address does not matter:
    [determineCorrectV] gives the same result for two expected addresses
    that differ in case only, so for an address and its lower-case
    form. *)
Theorem determineCorrectV_case_insensitive (msg : Buffer) (r s e1 e2 : string) :
  (toLowerCase e1 = toLowerCase e2 ->
   determineCorrectV msg r s e1 = determineCorrectV msg r s e2)
  /\ determineCorrectV msg r s (toLowerCase e1) = determineCorrectV msg r s e1.
Proof.
  assert (Hgen : forall a b, toLowerCase a = toLowerCase b ->
                        determineCorrectV msg r s a = determineCorrectV msg r s b).
  { intros a b Hab. unfold determineCorrectV, isCorrectV. now rewrite Hab. }
  split; [apply Hgen |]. apply Hgen, toLowerCase_idempotent.
Qed.

(** X6.  A failure of the recovery primitive is not taken for a mismatch:
    when recovery with [v = 27] fails, [determineCorrectV] throws that
    failure, whatever recovery with [v = 28] would give; when [v = 27]
    yields a different address and recovery with [v = 28] fails, it throws
    that failure. *)
Theorem determineCorrectV_propagates_failure (msg : Buffer) (r s expected : string) :
  (forall what,
      recoverAddress msg r s 27 = Failed what ->
      determineCorrectV msg r s expected = Throw (External what))
  /\ (forall a27 what,
        recoverAddress msg r s 27 = Returned a27 ->
        toLowerCase a27 <> toLowerCase expected ->
        recoverAddress msg r s 28 = Failed what ->
        determineCorrectV msg r s expected = Throw (External what)).
Proof.
  unfold determineCorrectV. split.
  - intros what H27. now rewrite (isCorrectV_failed _ _ _ _ _ _ H27).
  - intros a27 what H27 Hne H28.
    rewrite (isCorrectV_returned _ _ _ _ _ _ H27). cbn.
    destruct (String.eqb_spec (toLowerCase a27) (toLowerCase expected)); [contradiction |].
    now rewrite (isCorrectV_failed _ _ _ _ _ _ H28).
Qed.

End RecoveryMore.

Lemma determineCorrectV_propagates_failure_witness :
  @recoverAddress Failing.ethers27 [] "0x01" "0x01" 27 = Failed "recovery"
  /\ @recoverAddress Failing.ethers27 [] "0x01" "0x01" 28 = Returned StandIn.signerAddress
  /\ @determineCorrectV Failing.ethers27 [] "0x01" "0x01" StandIn.signerAddress
     = Throw (External "recovery")
  /\ @determineCorrectV Failing.ethers28 [] "0x01" "0x01" StandIn.signerAddress
     = Throw (External "recovery").
Proof.
  split; [reflexivity |]. split; [reflexivity |]. split.
  - exact (proj1 (@determineCorrectV_propagates_failure Failing.ethers27 [] "0x01" "0x01"
                    StandIn.signerAddress) "recovery" eq_refl).
  - refine (proj2 (@determineCorrectV_propagates_failure Failing.ethers28 [] "0x01" "0x01"
                     StandIn.signerAddress) StandIn.otherAddress "recovery" eq_refl _ eq_refl).
    discriminate.
Defined.

Lemma determineCorrectV_case_insensitive_witness :
  toLowerCase StandIn.signerAddress = toLowerCase (toLowerCase StandIn.signerAddress)
  /\ @determineCorrectV StandIn.ethers [] "0x01" "0x01" StandIn.signerAddress
     = @determineCorrectV StandIn.ethers [] "0x01" "0x01" (toLowerCase StandIn.signerAddress).
Proof.
  split; [reflexivity |].
  exact (proj1 (@determineCorrectV_case_insensitive StandIn.ethers [] "0x01" "0x01"
                  StandIn.signerAddress (toLowerCase StandIn.signerAddress)) eq_refl).
Defined.

(** ** [getEthAddress]: any decoded key, and the checksum of the result *)

Lemma startsWith_0x (s : string) :
  startsWith "0x" s = true -> s = "0x" +:+ string_drop 2 s.
Proof.
  destruct s as [| c0 [| c1 s]]; cbn [startsWith]; try discriminate.
  - now rewrite andb_false_r.
  - destruct (Ascii.eqb_spec "0" c0) as [<- |]; [| discriminate].
    destruct (Ascii.eqb_spec "x" c1) as [<- |]; [reflexivity | discriminate].
Qed.

Lemma isHexChar_case (c : ascii) :
  isHexChar c = true -> isHexChar (lowerChar c) = true /\ isHexChar (upperChar c) = true.
Proof.
  destruct c as [[] [] [] [] [] [] [] []]; vm_compute; intros H;
    first [discriminate H | split; reflexivity].
Qed.

Lemma toLowerCase_hex (s : string) :
  string_forallb isHexChar s = true -> string_forallb isHexChar (toLowerCase s) = true.
Proof.
  induction s as [| c s IH]; [reflexivity |].
  cbn [string_forallb toLowerCase]. intros [Hc Hs]%andb_prop.
  now rewrite (proj1 (isHexChar_case c Hc)), IH.
Qed.

Lemma toLowerCase_length (s : string) : String.length (toLowerCase s) = String.length s.
Proof. induction s as [| c s IH]; [reflexivity | cbn; now rewrite IH]. Qed.

Lemma checksumCase_hex_bounded (n : nat) : forall chars hashed,
  (String.length chars <= n)%nat ->
  string_forallb isHexChar chars = true ->
  string_forallb isHexChar (checksumCase chars hashed) = true.
Proof.
  induction n as [| n IH]; intros chars hashed Hn Hhex.
  - destruct chars; [reflexivity | cbn in Hn; lia].
  - destruct chars as [| c0 [| c1 rest]]; try exact Hhex.
    destruct hashed as [| h hashed]; [exact Hhex |].
    cbn [string_forallb] in Hhex.
    apply andb_prop in Hhex as [H0 [H1 Hrest]%andb_prop].
    cbn [checksumCase string_forallb]. cbn [String.length] in Hn.
    rewrite (IH rest hashed ltac:(lia) Hrest).
    destruct (isHexChar_case c0 H0) as [_ U0].
    destruct (isHexChar_case c1 H1) as [_ U1].
    destruct (8 <=? u8 h / 16), (8 <=? u8 h mod 16); now rewrite ?U0, ?U1, ?H0, ?H1.
Qed.

Section AddressMore.
Context {A : Asn1} {E : Ethers}.

Lemma getChecksumAddress_0x (body : string) :
  getChecksumAddress ("0x" +:+ body) =
  "0x" +:+ checksumCase (toLowerCase body)
             (firstn 20 (keccak256_raw (charCodes (toLowerCase body)))).
Proof. unfold getChecksumAddress. now rewrite toLowerCase_app. Qed.

(** What ethers [getAddress] accepts without the ICAP branch, it accepts
    again, unchanged. *)
Lemma ethers_getAddress_again (address a : string) :
  isIcapString address = false ->
  ethers_getAddress address = Ok a ->
  ethers_getAddress a = Ok a.
Proof.
  intros Hicap. unfold ethers_getAddress at 1. rewrite Hicap.
  destruct (isAddressString address) eqn:Haddr; [| discriminate].
  unfold isAddressString in Haddr.
  set (body := if startsWith "0x" address then string_drop 2 address else address) in *.
  assert (Hprefixed : (if startsWith "0x" address then address else "0x" +:+ address)
                      = "0x" +:+ body).
  { subst body. destruct (startsWith "0x" address) eqn:Hp; [now apply startsWith_0x | reflexivity]. }
  rewrite Hprefixed, getChecksumAddress_0x.
  apply andb_prop in Haddr as [Hlen Hhex]. apply Nat.eqb_eq in Hlen.
  set (lower := toLowerCase body).
  set (hashed := firstn 20 (keccak256_raw (charCodes lower))).
  destruct (_ || _); [| discriminate]. intros [= <-].
  destruct (checksumCase_spec lower hashed) as [Hclen Hclower].
  assert (Hlower : toLowerCase (checksumCase lower hashed) = lower).
  { rewrite Hclower. apply toLowerCase_idempotent. }
  unfold ethers_getAddress, isAddressString.
  change (startsWith "0x" ("0x" +:+ checksumCase lower hashed)) with true. cbv iota.
  change (string_drop 2 ("0x" +:+ checksumCase lower hashed)) with (checksumCase lower hashed).
  rewrite Hclen. subst lower. rewrite toLowerCase_length, Hlen.
  rewrite (checksumCase_hex_bounded 40) by
    (rewrite ?toLowerCase_length; try lia; now apply toLowerCase_hex).
  cbn [Nat.eqb andb].
  rewrite getChecksumAddress_0x, Hlower. fold hashed.
  now rewrite String.eqb_refl, orb_true_r.
Qed.

(** X7.  [getEthAddress] checks neither the length of the decoded key nor
    its first byte: for every key the decoder accepts, whose last bytes
    hash to 32 bytes, it returns the 42-character address made of the last
    20 bytes of the hash of all bytes but the first. *)
Theorem getEthAddress_of_any_decoded_key (publicKeyDer point : Buffer) :
  decodeEcdsaPubKey publicKeyDer = Ok point ->
  length (keccak256_raw (skipn 1 point)) = 32%nat ->
  exists address,
    getEthAddress publicKeyDer = Ok address
    /\ toLowerCase address = "0x" +:+ hexBytes (skipn 12 (keccak256_raw (skipn 1 point)))
    /\ String.length address = 42%nat.
Proof.
  intros Hdec Hhash.
  set (low20 := skipn 12 (keccak256_raw (skipn 1 point))).
  assert (Hlow : length low20 = 20%nat) by (subst low20; rewrite length_skipn; lia).
  eexists. split; [| split].
  - unfold getEthAddress. rewrite Hdec. cbn [mbind Result_bind].
    unfold keccak256. rewrite slice_last_hexlify by exact Hhash.
    now apply ethers_getAddress_lowercase.
  - fold low20.
    destruct (checksumCase_spec (hexBytes low20)
                (firstn 20 (keccak256_raw (charCodes (hexBytes low20))))) as [_ Hcase].
    destruct (hexBytes_chars low20) as (_ & _ & Hlower & _).
    rewrite toLowerCase_app, Hcase. now rewrite Hlower.
  - fold low20.
    destruct (checksumCase_spec (hexBytes low20)
                (firstn 20 (keccak256_raw (charCodes (hexBytes low20))))) as [Hlen _].
    destruct (hexBytes_chars low20) as (_ & _ & _ & Hl).
    rewrite string_length_app, Hlen, Hl, Hlow. reflexivity.
Qed.

(** X8.  The address [getEthAddress] returns is one ethers [getAddress]
    accepts as it is: its mixed case carries a correct checksum. *)
Theorem getEthAddress_checksum_valid (publicKeyDer : Buffer) (a : string) :
  getEthAddress publicKeyDer = Ok a -> ethers_getAddress a = Ok a.
Proof.
  unfold getEthAddress.
  destruct (decodeEcdsaPubKey publicKeyDer) as [point | e]; [| discriminate].
  cbn [mbind Result_bind]. apply ethers_getAddress_again. reflexivity.
Qed.

End AddressMore.

Lemma getEthAddress_of_any_decoded_key_witness :
  @decodeEcdsaPubKey Der.asn1 publicKey_der_short = Ok [x02]
  /\ length (@keccak256_raw StandIn.ethers (skipn 1 [x02])) = 32%nat
  /\ exists address,
       @getEthAddress Der.asn1 StandIn.ethers publicKey_der_short = Ok address
       /\ toLowerCase address
          = "0x" +:+ hexBytes (skipn 12 (@keccak256_raw StandIn.ethers (skipn 1 [x02])))
       /\ String.length address = 42%nat.
Proof.
  assert (Hdec : @decodeEcdsaPubKey Der.asn1 publicKey_der_short = Ok [x02])
    by (vm_compute; reflexivity).
  split; [exact Hdec |]. split; [reflexivity |].
  exact (@getEthAddress_of_any_decoded_key Der.asn1 StandIn.ethers publicKey_der_short [x02]
           Hdec eq_refl).
Defined.

Lemma getEthAddress_checksum_valid_witness :
  @getEthAddress Der.asn1 StandIn.ethers publicKey_der = Ok StandIn.signerAddress
  /\ @ethers_getAddress StandIn.ethers StandIn.signerAddress = Ok StandIn.signerAddress.
Proof.
  assert (Hget : @getEthAddress Der.asn1 StandIn.ethers publicKey_der = Ok StandIn.signerAddress)
    by (vm_compute; reflexivity).
  split; [exact Hget |].
  exact (@getEthAddress_checksum_valid Der.asn1 StandIn.ethers publicKey_der _ Hget).
Defined.

(** ** The constructor and [connect], further *)

(** X10.  [connect] does not look at the environment and forgets what was
    connected before: connecting the result of a [connect] gives the same
    instance as connecting the original, with the last provider. *)
Theorem connect_of_connect
    (env e1 e2 e3 : option string) (config : AwsKmsSignerConfig)
    (p : option Provider) (memo : option string) (p1 p2 : Provider) :
  let made := new_AwsKmsSigner env config p in
  let this := {| provider := provider made; address := memo;
                 keyId := keyId made; client := client made |} in
  connect e2 (connect e1 this p1) p2 = connect e3 this p2.
Proof.
  intros made this.
  pose proof (new_AwsKmsSigner_region env config p) as Hregion.
  subst this made.
  unfold connect, new_AwsKmsSigner in *. cbn in *.
  rewrite Hregion. cbn [truthyString]. rewrite Hregion. reflexivity.
Qed.

(** ** The signer over histories, further *)

Section SignerMore.
Context {A : Asn1} {E : Ethers} {K : Kms}.

(** X11.  Whatever calls are made, the key id, the client and the provider
    of the instance stay what they were. *)
Theorem run_keeps_readonly_fields (ops : list Operation) (w : World) :
  keyId (this (run ops w)) = keyId (this w)
  /\ client (this (run ops w)) = client (this w)
  /\ provider (this (run ops w)) = provider (this w).
Proof.
  apply (preserves_run
           (fun w' => keyId (this w') = keyId (this w)
                      /\ client (this w') = client (this w)
                      /\ provider (this w') = provider (this w)));
    try (intros; intros w' Hw'; exact Hw'); [| auto].
  intros w' Hw'.
  destruct (getAddress_cases w') as [(a & _ & ->) | (_ & r & w2 & -> & _ & _ & Hr)];
    [exact Hw' |].
  cbn [snd]. destruct Hr as [(e & _ & _ & -> & _) | (a & _ & _ & -> & _)]; exact Hw'.
Qed.

Lemma getEthAddress_Throw_kind (publicKeyDer : Buffer) (e : Error) :
  getEthAddress publicKeyDer = Throw e -> e = InvalidAddress \/ exists what, e = External what.
Proof.
  unfold getEthAddress, decodeEcdsaPubKey.
  destruct (EcdsaPubKey_decode publicKeyDer) as [point | what]; [| intros [= <-]; eauto].
  cbn [call mbind Result_bind]. unfold ethers_getAddress.
  destruct (isAddressString _).
  - destruct (_ || _); [discriminate | intros [= <-]; auto].
  - destruct (isIcapString _); [| intros [= <-]; auto].
    destruct (fromIcap _); [discriminate | intros [= <-]; eauto].
Qed.

(** X12.  A [getAddress] that fails memoizes nothing: the field was unset
    and stays unset, one GetPublicKey command was sent, the error is
    [MissingPublicKey] exactly when the response has no key, and the next
    [getAddress] sends the command again. *)
Theorem getAddress_failure_not_memoized (w w' : World) (e : Error) :
  getAddress w = (Throw e, w') ->
  truthyString (address (this w)) = None
  /\ this w' = this w
  /\ assigned w' = assigned w
  /\ txRequest w' = txRequest w
  /\ sent w' = (sent w ++ [GetPublicKeyCommand (keyId (this w))])%list
  /\ (e = MissingPublicKey <->
      respond (client (this w)) (sent w) (GetPublicKeyCommand (keyId (this w)))
      = Returned None)
  /\ sent (getAddress w').2
     = (sent w ++ [GetPublicKeyCommand (keyId (this w));
                   GetPublicKeyCommand (keyId (this w))])%list.
Proof.
  intros Hget.
  destruct (getAddress_cases w) as
    [(a & _ & Hok) | (Hnone & r & w1 & Hget' & Hreq & Hsent & Hr)]; [congruence |].
  rewrite Hget in Hget'. injection Hget' as <- <-.
  destruct Hr as [(e' & [= <-] & _ & Hthis & Hassigned) | (a & [=] & _)].
  repeat (split; [assumption |]).
  split.
  - revert Hget. unfold getAddress.
    unfold mbind, M_bind, get_this, send, lift. cbv beta iota. rewrite Hnone.
    destruct (respond _ _ _) as [[pk |] | what]; cbn [call].
    + destruct (getEthAddress pk) as [a | e'] eqn:Haddr; cbn; [discriminate |].
      intros [= <- _]. split; [| discriminate].
      intros ->. apply getEthAddress_Throw_kind in Haddr as [[=] | (what & [=])].
    + intros [= <- _]. split; reflexivity.
    + intros [= <- _]. split; discriminate.
  - destruct (getAddress_cases w') as
      [(a & Hm & _) | (_ & r & w2 & -> & _ & Hsent' & _)].
    + pose proof (memoized_truthy a w' Hm) as Ht. rewrite Hthis in Ht. congruence.
    + cbn [snd]. rewrite Hsent', Hsent, Hthis, <- app_assoc. reflexivity.
Qed.

End SignerMore.

Lemma getAddress_failure_not_memoized_witness :
  let w := StandIn.world ∅ in
  exists w',
    @getAddress Der.asn1 StandIn.ethers Failing.kms_empty w = (Throw MissingPublicKey, w')
    /\ this w' = this w
    /\ sent w' = [GetPublicKeyCommand "key-1"].
Proof.
  intros w.
  assert (Hget : @getAddress Der.asn1 StandIn.ethers Failing.kms_empty w
                 = (Throw MissingPublicKey,
                    (@getAddress Der.asn1 StandIn.ethers Failing.kms_empty w).2))
    by (vm_compute; reflexivity).
  destruct (@getAddress_failure_not_memoized Der.asn1 StandIn.ethers Failing.kms_empty
              w _ _ Hget) as (_ & Hthis & _ & _ & Hsent & _).
  eexists. split; [exact Hget |]. split; [exact Hthis | exact Hsent].
Defined.

(** ** Signing: what is sent, and what a returned signature is *)

Section SigningFacts.
Context {A : Asn1} {E : Ethers} {K : Kms}.

(** [_signDigest], one step after the other. *)
Lemma _signDigest_run (digestHex : string) (w : World) :
  _signDigest digestHex w =
  match getBytes digestHex with
  | Failed what => (Throw (External what), w)
  | Returned digestBuf =>
      let command := SignCommand (keyId (this w)) digestBuf in
      let signed :=
        match respond (client (this w)) (sent w) command with
        | Returned (Some sigBytes) => getRsSignature sigBytes
        | Returned None => Throw MissingSignature
        | Failed what => Throw (External what)
        end in
      let fetched := getAddress (send command w).2 in
      (rs ← signed;
       ethAddress ← fetched.1;
       v ← determineCorrectV digestBuf (sig_r rs) (sig_s rs) ethAddress;
       call (Signature_serialized (sig_r rs) (sig_s rs) v),
       fetched.2)
  end.
Proof.
  unfold _signDigest, _rawKmsSign.
  unfold mbind at 1 2 3 4 5 6 7 8 9, M_bind, lift, settle, get_this, throw.
  cbv beta iota zeta.
  destruct (getBytes digestHex) as [digestBuf | what]; cbn [call]; [| reflexivity].
  unfold send at 1 3. cbn [fst snd].
  destruct (respond _ _ _) as [[sigBytes |] | what]; cbn [call].
  - destruct (getAddress _) as [[a | e] w3]; cbn [fst snd];
      destruct (getRsSignature sigBytes) as [rs | e']; cbn [mbind Result_bind]; try reflexivity.
    destruct (determineCorrectV _ _ _ _); reflexivity.
  - destruct (getAddress _) as [[a | e] w3]; reflexivity.
  - destruct (getAddress _) as [[a | e] w3]; reflexivity.
Qed.

Lemma determineCorrectV_Ok (msg : Buffer) (r s expected : string) (v : Z) :
  determineCorrectV msg r s expected = Ok v ->
  (v = 27 \/ v = 28)
  /\ exists recovered,
       recoverAddress msg r s v = Returned recovered
       /\ toLowerCase recovered = toLowerCase expected.
Proof.
  unfold determineCorrectV, isCorrectV.
  destruct (recoverAddress msg r s 27) as [a27 | what] eqn:H27; [| discriminate]. cbn.
  destruct (String.eqb_spec (toLowerCase a27) (toLowerCase expected)).
  { intros [= <-]. eauto. }
  destruct (recoverAddress msg r s 28) as [a28 | what] eqn:H28; [| discriminate]. cbn.
  destruct (String.eqb_spec (toLowerCase a28) (toLowerCase expected)); [| discriminate].
  intros [= <-]. eauto.
Qed.

(** A signature [_signDigest] returns was obtained from KMS for the digest
    and recovers, with the [v] found, to the address of the signer. *)
Lemma _signDigest_Ok (digestHex serialized : string) (w w' : World) :
  _signDigest digestHex w = (Ok serialized, w') ->
  exists digestBuf sigBytes rs ethAddress v recovered,
    getBytes digestHex = Returned digestBuf
    /\ respond (client (this w)) (sent w) (SignCommand (keyId (this w)) digestBuf)
       = Returned (Some sigBytes)
    /\ getRsSignature sigBytes = Ok rs
    /\ memoized ethAddress w'
    /\ (v = 27 \/ v = 28)
    /\ recoverAddress digestBuf (sig_r rs) (sig_s rs) v = Returned recovered
    /\ toLowerCase recovered = toLowerCase ethAddress
    /\ Signature_serialized (sig_r rs) (sig_s rs) v = Returned serialized.
Proof.
  rewrite _signDigest_run.
  destruct (getBytes digestHex) as [digestBuf | what] eqn:Hbytes; [| discriminate].
  cbv zeta.
  destruct (respond _ _ _) as [[sigBytes |] | what] eqn:Hresp; try discriminate.
  destruct (getRsSignature sigBytes) as [rs | e] eqn:Hrs; [| discriminate].
  destruct (getAddress _) as [[ethAddress | e] w3] eqn:Hget; [| discriminate].
  cbn [fst snd mbind Result_bind].
  destruct (determineCorrectV _ _ _ _) as [v | e] eqn:Hv; [| discriminate].
  cbn [mbind Result_bind].
  destruct (Signature_serialized _ _ _) as [ser | what] eqn:Hser; [| discriminate].
  intros [= <- <-].
  destruct (determineCorrectV_Ok _ _ _ _ _ Hv) as (Hv27 & recovered & Hrec & Hlow).
  exists digestBuf, sigBytes, rs, ethAddress, v, recovered.
  split; [reflexivity |]. split; [exact Hresp |]. split; [exact Hrs |].
  split; [exact (proj1 (getAddress_Ok _ _ _ Hget)) |].
  split; [exact Hv27 |]. split; [exact Hrec |]. split; [exact Hlow | exact Hser].
Qed.

(** The commands [_signDigest] sends: none when the digest string is not
    hex; otherwise one Sign for the key of the instance, followed by one
    GetPublicKey when the address is not memoized. *)
Lemma _signDigest_sent (digestHex : string) (w : World) :
  let w' := (_signDigest digestHex w).2 in
  txRequest w' = txRequest w
  /\ keyId (this w') = keyId (this w)
  /\ match getBytes digestHex with
     | Failed _ => w' = w
     | Returned digestBuf =>
         (exists a, memoized a w /\ this w' = this w
                    /\ sent w' = (sent w ++ [SignCommand (keyId (this w)) digestBuf])%list)
         \/ (truthyString (address (this w)) = None
             /\ sent w' = (sent w ++ [SignCommand (keyId (this w)) digestBuf;
                                      GetPublicKeyCommand (keyId (this w))])%list)
     end.
Proof.
  intros w'. subst w'. rewrite _signDigest_run.
  destruct (getBytes digestHex) as [digestBuf | what]; [| auto].
  cbv zeta. cbn [snd].
  set (w2 := (send (SignCommand (keyId (this w)) digestBuf) w).2).
  assert (H2 : this w2 = this w /\ txRequest w2 = txRequest w
               /\ sent w2 = (sent w ++ [SignCommand (keyId (this w)) digestBuf])%list)
    by (subst w2; auto).
  destruct H2 as (Hthis2 & Hreq2 & Hsent2).
  destruct (getAddress_cases w2) as
    [(a & Hm & ->) | (Hnone & r & w3 & -> & Hreq & Hsent & Hr)]; cbn [snd].
  - split; [exact Hreq2 |]. split; [now rewrite Hthis2 |].
    left. exists a. unfold memoized in *. rewrite Hthis2 in Hm. auto.
  - split; [congruence |].
    split.
    { destruct Hr as [(e & _ & _ & -> & _) | (a & _ & _ & -> & _)]; now rewrite Hthis2. }
    right. rewrite Hthis2 in Hnone, Hsent. split; [exact Hnone |].
    rewrite Hsent, Hsent2, <- app_assoc. reflexivity.
Qed.

(** X13.  A signature [signMessage] returns was made by KMS for the digest
    of the message with the key of the instance, and it recovers, with the
    [v] that was found (27 or 28), to the address the instance has
    memoized: no signature is returned that fails this check. *)
Theorem signMessage_returns_recoverable_signature
    (message serialized : string) (w w' : World) :
  signMessage message w = (Ok serialized, w') ->
  exists digestHex digestBuf sigBytes rs ethAddress v recovered,
    hashMessage message = Returned digestHex
    /\ getBytes digestHex = Returned digestBuf
    /\ respond (client (this w)) (sent w) (SignCommand (keyId (this w)) digestBuf)
       = Returned (Some sigBytes)
    /\ getRsSignature sigBytes = Ok rs
    /\ memoized ethAddress w'
    /\ (v = 27 \/ v = 28)
    /\ recoverAddress digestBuf (sig_r rs) (sig_s rs) v = Returned recovered
    /\ toLowerCase recovered = toLowerCase ethAddress
    /\ Signature_serialized (sig_r rs) (sig_s rs) v = Returned serialized.
Proof.
  unfold signMessage. unfold mbind at 1, M_bind, lift.
  destruct (hashMessage message) as [digestHex | what]; [| discriminate].
  cbn [call]. intros Hsign.
  destruct (_signDigest_Ok _ _ _ _ Hsign)
    as (digestBuf & sigBytes & rs & ethAddress & v & recovered & H).
  exists digestHex, digestBuf, sigBytes, rs, ethAddress, v, recovered. auto.
Qed.

(** X14.  [signMessage] and [signTypedData] leave the request object alone
    and send at most two commands, in this order: one Sign for the key of
    the instance and, only when the address is not memoized, one
    GetPublicKey; with a memoized address the instance itself is left as
    it was. *)
Theorem signMessage_commands (message : string) (w : World) :
  digest_signing_effect w (signMessage message w).2
  /\ digest_signing_effect w (signTypedData message w).2.
Proof.
  assert (Hgen : forall (hash : Outcome string),
             digest_signing_effect w ((digest ← lift (call hash); _signDigest digest) w).2).
  { intros hash. unfold digest_signing_effect. unfold mbind, M_bind, lift.
    destruct hash as [digestHex | what]; cbn [call snd]; [| auto].
    destruct (_signDigest_sent digestHex w) as (Hreq & _ & Hsent).
    destruct (_signDigest digestHex w) as [[ser | e] w1]; cbn [snd] in *;
      (split; [exact Hreq |]);
      (destruct (getBytes digestHex) as [digestBuf | what];
       [destruct Hsent as [(a & Hsent) | Hsent]; eauto | auto]). }
  split; [apply (Hgen (hashMessage message)) | apply (Hgen (TypedDataEncoder_hash message))].
Qed.

(** ** [signTransaction]: failures before the check, success, commands *)

Lemma signTransaction_early (w : World) :
  (forall e,
      resolveProperties (txRequest w) = Throw e ->
      signTransaction w = (Throw e, (getAddress w).2))
  /\ (forall from to e w1,
        resolveProperties (txRequest w) = Ok (from, to) ->
        getAddress w = (Throw e, w1) ->
        signTransaction w = (Throw e, w1)).
Proof.
  split.
  - intros e Hres. unfold signTransaction.
    unfold mbind at 1 2 3, M_bind, get_txRequest, settle, lift. cbv beta iota.
    destruct (getAddress w) as [r w1]. cbn [snd]. now rewrite Hres.
  - intros from to e w1 Hres Hget. unfold signTransaction.
    unfold mbind at 1 2 3 4, M_bind, get_txRequest, settle, lift. cbv beta iota.
    now rewrite Hget, Hres.
Qed.

Lemma build_and_sign_run (w : World) :
  signTransaction_build_and_sign w =
  match Transaction_from (txRequest w) with
  | Failed what => (Throw (External what), w)
  | Returned tx =>
      let signed := _signDigest (unsignedHash tx) w in
      (signature ← signed.1; call (Transaction_serialized tx signature), signed.2)
  end.
Proof.
  unfold signTransaction_build_and_sign.
  unfold mbind at 1 2 3, M_bind, get_txRequest, lift. cbv beta iota.
  destruct (Transaction_from (txRequest w)) as [tx | what]; cbn [call]; [| reflexivity].
  cbv zeta. destruct (_signDigest (unsignedHash tx) w) as [[signature | e] w1]; reflexivity.
Qed.

Lemma getAddress_readonly (w : World) :
  keyId (this (getAddress w).2) = keyId (this w)
  /\ client (this (getAddress w).2) = client (this w).
Proof.
  destruct (getAddress_cases w) as [(a & _ & ->) | (_ & r & w2 & -> & _ & _ & Hr)]; [auto |].
  cbn [snd]. destruct Hr as [(e & _ & _ & -> & _) | (a & _ & _ & -> & _)]; auto.
Qed.

(** X15.  When a property of the request rejects, or the address cannot
    be obtained, [signTransaction] throws: the rejection of the property
    or the error of [getAddress], hence the one that occurred when only
    one did; the request object is untouched and no Sign command is
    sent. *)
Theorem signTransaction_fails_before_writing (w : World) :
  (exists e, resolveProperties (txRequest w) = Throw e)
  \/ (exists e, (getAddress w).1 = Throw e) ->
  (exists e,
      (signTransaction w).1 = Throw e
      /\ (resolveProperties (txRequest w) = Throw e \/ (getAddress w).1 = Throw e))
  /\ txRequest (signTransaction w).2 = txRequest w
  /\ signs (signTransaction w).2 = signs w.
Proof.
  intros Hfail.
  assert (Hrun : exists e,
             signTransaction w = (Throw e, (getAddress w).2)
             /\ (resolveProperties (txRequest w) = Throw e \/ (getAddress w).1 = Throw e)).
  { destruct (resolveProperties (txRequest w)) as [[from to] | e] eqn:Hres.
    - destruct Hfail as [[e [=]] | [e Hget]].
      exists e. split; [| auto].
      apply (proj2 (signTransaction_early w) from to e _ Hres).
      destruct (getAddress w) as [r w1]. cbn in *. now subst r.
    - exists e. split; [| auto]. now apply signTransaction_early. }
  destruct Hrun as (e & Hrun & Hwhich).
  split; [exists e; split; [now rewrite Hrun | exact Hwhich] |].
  rewrite Hrun. cbn [snd].
  split; [apply getAddress_txRequest | apply getAddress_signs].
Qed.

(** X16.  What [signTransaction] returns is the serialization of the
    transaction built from the request as it is after the call, with a
    signature that KMS made for the unsigned hash of that transaction and
    that recovers, with the [v] found, to the memoized address; and a
    [from] that the request declared was equal to that address, letter
    case apart. *)
Theorem signTransaction_returns_recoverable_signature
    (serialized : string) (w w' : World) :
  signTransaction w = (Ok serialized, w') ->
  exists from to ethAddress tx digestBuf sigBytes rs v recovered signature,
    resolveProperties (txRequest w) = Ok (from, to)
    /\ memoized ethAddress w'
    /\ (isTruthy (Plain from) = true ->
        toLowerCase (toStringOf (Plain from)) = toLowerCase ethAddress)
    /\ Transaction_from (txRequest w') = Returned tx
    /\ getBytes (unsignedHash tx) = Returned digestBuf
    /\ respond (client (this w)) (sent (getAddress w).2)
         (SignCommand (keyId (this w)) digestBuf) = Returned (Some sigBytes)
    /\ getRsSignature sigBytes = Ok rs
    /\ (v = 27 \/ v = 28)
    /\ recoverAddress digestBuf (sig_r rs) (sig_s rs) v = Returned recovered
    /\ toLowerCase recovered = toLowerCase ethAddress
    /\ Signature_serialized (sig_r rs) (sig_s rs) v = Returned signature
    /\ Transaction_serialized tx signature = Returned serialized.
Proof.
  intros Hrun.
  destruct (resolveProperties (txRequest w)) as [[from to] | e] eqn:Hres.
  2:{ rewrite (proj1 (signTransaction_early w) e Hres) in Hrun. discriminate. }
  destruct (getAddress w) as [[ethAddress | e] w1] eqn:Hget.
  2:{ rewrite (proj2 (signTransaction_early w) from to e w1 Hres Hget) in Hrun. discriminate. }
  pose proof (getAddress_readonly w) as [Hkey Hclient]. rewrite Hget in Hkey, Hclient.
  cbn [snd] in Hkey, Hclient.
  destruct (getAddress_Ok _ _ _ Hget) as [Hm1 _].
  rewrite (signTransaction_steps w w1 from to ethAddress Hres Hget) in Hrun.
  set (request2 := if isNullish from then _ else _) in Hrun.
  assert (Hbuilt : exists request,
             signTransaction_build_and_sign (with_txRequest request w1) = (Ok serialized, w')
             /\ (isTruthy (Plain from) = true ->
                 toLowerCase (toStringOf (Plain from)) = toLowerCase ethAddress)).
  { assert (Hdeclared : isTruthy (Plain from) = true -> readProp request2 "from" = Plain from).
    { intros Ht. subst request2.
      assert (Hnn : isNullish from = false) by (destruct from; cbn in *; congruence).
      rewrite Hnn. apply readProp_insert. }
    destruct (isTruthy (readProp request2 "from")) eqn:Htruthy.
    - destruct (String.eqb_spec (toLowerCase (toStringOf (readProp request2 "from")))
                  (toLowerCase ethAddress)) as [Heq |]; [| discriminate].
      eexists. split; [exact Hrun |]. intros Ht. now rewrite <- (Hdeclared Ht).
    - eexists. split; [exact Hrun |]. intros Ht. rewrite (Hdeclared Ht) in Htruthy. congruence. }
  destruct Hbuilt as (request & Hbuilt & Hfrom).
  rewrite build_and_sign_run in Hbuilt. cbn [with_txRequest txRequest] in Hbuilt.
  destruct (Transaction_from request) as [tx | what] eqn:Htx; [| discriminate].
  cbv zeta in Hbuilt.
  pose proof (_signDigest_sent (unsignedHash tx) (with_txRequest request w1)) as (Hreq & _).
  destruct (_signDigest (unsignedHash tx) (with_txRequest request w1))
    as [[signature | e] w2] eqn:Hsign; [| discriminate].
  cbn [fst snd mbind Result_bind] in Hbuilt, Hreq.
  destruct (Transaction_serialized tx signature) as [ser | what] eqn:Hser; [| discriminate].
  injection Hbuilt as <- <-.
  destruct (_signDigest_Ok _ _ _ _ Hsign)
    as (digestBuf & sigBytes & rs & a & v & recovered
        & Hbytes & Hresp & Hrs & Hm & Hv & Hrec & Hlow & Hsig).
  cbn [with_txRequest this sent] in Hresp. rewrite Hkey, Hclient in Hresp.
  assert (a = ethAddress) as ->.
  { pose proof (_signDigest_sent (unsignedHash tx) (with_txRequest request w1)) as (_ & _ & Hs).
    rewrite Hsign, Hbytes in Hs. cbn [snd with_txRequest this] in Hs.
    destruct Hs as [(a' & Hm' & Hthis & _) | (Hnone & _)].
    - destruct Hm as [Hm _]. destruct Hm1 as [Hm1 _]. rewrite Hthis in Hm. congruence.
    - rewrite (memoized_truthy _ _ Hm1) in Hnone. discriminate. }
  exists from, to, ethAddress, tx, digestBuf, sigBytes, rs, v, recovered, signature.
  split; [reflexivity |]. split; [exact Hm |]. split; [exact Hfrom |].
  split; [now rewrite Hreq |]. split; [exact Hbytes |]. split; [exact Hresp |].
  split; [exact Hrs |]. split; [exact Hv |]. split; [exact Hrec |]. split; [exact Hlow |].
  split; [exact Hsig | exact Hser].
Qed.

(** X17.  [signTransaction] sends at most one GetPublicKey command, and
    only when the address is not memoized, followed by at most one Sign
    command; both name the key of the instance. *)
Theorem signTransaction_commands (w : World) :
  exists fetch sign,
    sent (signTransaction w).2 = (sent w ++ fetch ++ sign)%list
    /\ (fetch = []
        \/ (fetch = [GetPublicKeyCommand (keyId (this w))]
            /\ truthyString (address (this w)) = None))
    /\ (sign = [] \/ exists digestBuf, sign = [SignCommand (keyId (this w)) digestBuf]).
Proof.
  assert (Hfetch : exists fetch,
             sent (getAddress w).2 = (sent w ++ fetch)%list
             /\ (fetch = []
                 \/ (fetch = [GetPublicKeyCommand (keyId (this w))]
                     /\ truthyString (address (this w)) = None))).
  { destruct (getAddress_cases w) as [(a & _ & ->) | (Hnone & r & w2 & -> & _ & Hsent & _)].
    - exists []. cbn [snd]. rewrite app_nil_r. auto.
    - eexists. cbn [snd]. split; [exact Hsent | auto]. }
  destruct Hfetch as (fetch & Hsent1 & Hfetch).
  exists fetch.
  assert (Hsign : exists sign,
             sent (signTransaction w).2 = (sent (getAddress w).2 ++ sign)%list
             /\ (sign = []
                 \/ exists digestBuf, sign = [SignCommand (keyId (this w)) digestBuf])).
  { destruct (resolveProperties (txRequest w)) as [[from to] | e] eqn:Hres.
    2:{ rewrite (proj1 (signTransaction_early w) e Hres). exists []. cbn [snd].
        rewrite app_nil_r. auto. }
    pose proof (getAddress_readonly w) as [Hkey _].
    destruct (getAddress w) as [[ethAddress | e] w1] eqn:Hget.
    2:{ rewrite (proj2 (signTransaction_early w) from to e w1 Hres Hget). exists [].
        cbn [snd]. rewrite app_nil_r. auto. }
    cbn [snd] in *.
    destruct (getAddress_Ok _ _ _ Hget) as [Hm1 _].
    assert (Hbuilt : forall request,
               exists sign,
                 sent (signTransaction_build_and_sign (with_txRequest request w1)).2
                 = (sent w1 ++ sign)%list
                 /\ (sign = []
                     \/ exists digestBuf, sign = [SignCommand (keyId (this w)) digestBuf])).
    { intros request. rewrite build_and_sign_run. cbn [with_txRequest txRequest].
      destruct (Transaction_from request) as [tx | what].
      2:{ exists []. cbn. rewrite app_nil_r. auto. }
      cbv zeta. cbn [snd].
      pose proof (_signDigest_sent (unsignedHash tx) (with_txRequest request w1))
        as (_ & _ & Hs).
      destruct (getBytes (unsignedHash tx)) as [digestBuf | what].
      2:{ rewrite Hs. exists []. cbn. rewrite app_nil_r. auto. }
      cbn [with_txRequest this sent] in Hs.
      destruct Hs as [(a' & _ & _ & Hs) | (Hnone & _)].
      - eexists. split; [exact Hs |]. right. exists digestBuf. now rewrite Hkey.
      - rewrite (memoized_truthy _ _ Hm1) in Hnone. discriminate. }
    rewrite (signTransaction_steps w w1 from to ethAddress Hres Hget).
    destruct (isTruthy _); [| apply Hbuilt].
    destruct (String.eqb _ _); [apply Hbuilt |].
    exists []. cbn. rewrite app_nil_r. auto. }
  destruct Hsign as (sign & Hsent2 & Hsign).
  exists sign. split; [| auto].
  now rewrite Hsent2, Hsent1, <- app_assoc.
Qed.

End SigningFacts.

Section TransactionMore.
Context {A : Asn1} {E : Ethers} {K : Kms}.

(** X18.  A request that declares no address (its [from] is absent,
    [null], [undefined] or the empty string) is not checked against the
    address of the signer: [signTransaction] goes on to build and sign, and
    the mismatch error is not thrown. *)
Theorem signTransaction_without_declared_from
    (w w1 : World) (from to : JsValue) (ethAddress : string) :
  readProp (txRequest w) "from" = Plain from ->
  isTruthy (Plain from) = false ->
  resolveProperties (txRequest w) = Ok (from, to) ->
  getAddress w = (Ok ethAddress, w1) ->
  (exists request,
     signTransaction w = signTransaction_build_and_sign (with_txRequest request w1)
     /\ readProp request "from" = Plain from)
  /\ forall f a, (signTransaction w).1 <> Throw (AddressMismatch f a).
Proof.
  intros Hprop Hfalsy Hres Hget.
  rewrite (signTransaction_steps w w1 from to ethAddress Hres Hget).
  set (request1 := if isNullish to then _ else _).
  set (request2 := if isNullish from then _ else _).
  assert (Hdeclared : readProp request2 "from" = Plain from).
  { subst request2. destruct (isNullish from); [| apply readProp_insert].
    subst request1. destruct (isNullish to); [exact Hprop |].
    unfold readProp in *. now rewrite lookup_insert_ne by discriminate. }
  rewrite Hdeclared, Hfalsy.
  split; [eauto |].
  intros f a Hthrow.
  pose proof (signTransaction_build_and_sign_returns (with_txRequest request2 w1)) as Hret.
  rewrite Hthrow in Hret. exact Hret.
Qed.

End TransactionMore.

Lemma signTransaction_without_declared_from_witness :
  let w := StandIn.world ∅ in
  readProp (txRequest w) "from" = Plain VUndefined
  /\ isTruthy (Plain VUndefined) = false
  /\ resolveProperties (txRequest w) = Ok (VUndefined, VUndefined)
  /\ (@getAddress Der.asn1 StandIn.ethers StandIn.kms w).1 = Ok StandIn.signerAddress
  /\ forall f a,
       (@signTransaction Der.asn1 StandIn.ethers StandIn.kms w).1 <> Throw (AddressMismatch f a).
Proof.
  intros w.
  assert (Hget : @getAddress Der.asn1 StandIn.ethers StandIn.kms w
                 = (Ok StandIn.signerAddress,
                    (@getAddress Der.asn1 StandIn.ethers StandIn.kms w).2))
    by (vm_compute; reflexivity).
  split; [reflexivity |]. split; [reflexivity |]. split; [reflexivity |].
  split; [vm_compute; reflexivity |].
  exact (proj2 (@signTransaction_without_declared_from Der.asn1 StandIn.ethers StandIn.kms
                  w _ VUndefined VUndefined _ eq_refl eq_refl eq_refl Hget)).
Defined.

Lemma signMessage_returns_recoverable_signature_witness :
  let w := StandIn.world ∅ in
  let result := @signMessage Der.asn1 StandIn.ethers StandIn.kms "hello" w in
  result.1 = Ok "0x010x01"
  /\ exists digestHex digestBuf sigBytes rs ethAddress v recovered,
       @hashMessage StandIn.ethers "hello" = Returned digestHex
       /\ @getBytes StandIn.ethers digestHex = Returned digestBuf
       /\ @respond StandIn.kms (client (this w)) (sent w)
            (SignCommand (keyId (this w)) digestBuf) = Returned (Some sigBytes)
       /\ @getRsSignature Der.asn1 sigBytes = Ok rs
       /\ memoized ethAddress result.2
       /\ (v = 27 \/ v = 28)
       /\ @recoverAddress StandIn.ethers digestBuf (sig_r rs) (sig_s rs) v = Returned recovered
       /\ toLowerCase recovered = toLowerCase ethAddress
       /\ @Signature_serialized StandIn.ethers (sig_r rs) (sig_s rs) v = Returned "0x010x01".
Proof.
  intros w result.
  assert (Hrun : @signMessage Der.asn1 StandIn.ethers StandIn.kms "hello" w
                 = (Ok "0x010x01", result.2)) by (vm_compute; reflexivity).
  split; [vm_compute; reflexivity |].
  exact (@signMessage_returns_recoverable_signature Der.asn1 StandIn.ethers StandIn.kms
           "hello" "0x010x01" w result.2 Hrun).
Defined.

Lemma signTransaction_fails_before_writing_witness :
  let w := StandIn.world Failing.request_rejecting in
  resolveProperties (txRequest w) = Throw (External "no such name")
  /\ (@getAddress Der.asn1 StandIn.ethers StandIn.kms w).1 = Ok StandIn.signerAddress
  /\ (@signTransaction Der.asn1 StandIn.ethers StandIn.kms w).1
     = Throw (External "no such name")
  /\ txRequest (@signTransaction Der.asn1 StandIn.ethers StandIn.kms w).2 = txRequest w
  /\ signs (@signTransaction Der.asn1 StandIn.ethers StandIn.kms w).2 = signs w.
Proof.
  intros w.
  assert (Hres : resolveProperties (txRequest w) = Throw (External "no such name"))
    by (vm_compute; reflexivity).
  assert (Hget : (@getAddress Der.asn1 StandIn.ethers StandIn.kms w).1
                 = Ok StandIn.signerAddress) by (vm_compute; reflexivity).
  destruct (@signTransaction_fails_before_writing Der.asn1 StandIn.ethers StandIn.kms
              w (or_introl (ex_intro _ _ Hres))) as ((e & Hrun & Hwhich) & Hreq & Hsigns).
  split; [exact Hres |]. split; [exact Hget |].
  split; [| split; [exact Hreq | exact Hsigns]].
  rewrite Hrun. destruct Hwhich as [He | He]; congruence.
Defined.

Lemma signTransaction_returns_recoverable_signature_witness :
  let w := StandIn.world StandIn.request in
  let result := @signTransaction Der.asn1 StandIn.ethers StandIn.kms w in
  result.1 = Ok "0x010x01"
  /\ exists ethAddress tx,
       memoized ethAddress result.2
       /\ @Transaction_from StandIn.ethers (txRequest result.2) = Returned tx.
Proof.
  intros w result.
  assert (Hrun : @signTransaction Der.asn1 StandIn.ethers StandIn.kms w
                 = (Ok "0x010x01", result.2)) by (vm_compute; reflexivity).
  split; [vm_compute; reflexivity |].
  destruct (@signTransaction_returns_recoverable_signature Der.asn1 StandIn.ethers
              StandIn.kms "0x010x01" w result.2 Hrun)
    as (from & to & ethAddress & tx & _ & _ & _ & _ & _ & _ & _ & Hm & _ & Htx & _).
  exists ethAddress, tx. split; [exact Hm | exact Htx].
Defined.

(** ** Failures of [getRsSignature] *)

Section SignatureFailures.
Context {A : Asn1}.

(** X19.  [getRsSignature] fails exactly when [decodeEcdsaSig] does, with
    the same error: the failure of the decoder, or the [SyntaxError] of
    [BigInt] when the decoder hands over a negative number. *)
Theorem getRsSignature_failures (signature : Buffer) (e : Error) :
  (getRsSignature signature = Throw e <-> decodeEcdsaSig signature = Throw e)
  /\ (decodeEcdsaSig signature = Throw e
      <-> (exists what,
             EcdsaSigAsnParse_decode signature = Failed what /\ e = External what)
          \/ (exists r s,
                EcdsaSigAsnParse_decode signature = Returned (r, s)
                /\ (r < 0 \/ s < 0) /\ e = SyntaxError)).
Proof.
  split.
  - rewrite getRsSignature_cases.
    destruct (decodeEcdsaSig signature) as [[r s] | e']; [split; discriminate |].
    split; intros [= <-]; reflexivity.
  - rewrite decodeEcdsaSig_cases.
    destruct (EcdsaSigAsnParse_decode signature) as [[r s] | what].
    + destruct (Z.ltb_spec r 0); destruct (Z.ltb_spec s 0); cbn [orb]; split;
        try discriminate;
        try (intros [= <-]; right; exists r, s; split; [reflexivity |]; split; [lia | reflexivity]);
        try (intros [(what & [=] & _) | (r' & s' & [= <- <-] & Hneg & ->)];
             first [reflexivity | lia]).
    + split.
      * intros [= <-]. left. eauto.
      * intros [(what' & [= <-] & ->) | (r & s & [=] & _)]. reflexivity.
Qed.

End SignatureFailures.
